(** * Cube: the self-driving 3x3x3 cube animation engine

    A shallow embedding of [src/components/Cube.tsx] (the main variant) and of
    the second copy of the component that carries the overshoot animation
    (the overshoot variant), together with the parts of three.js
    ([Vector3], [Quaternion]) and of the JavaScript [Math] object that the
    component calls.

    Numbers.  JavaScript numbers are modelled as real numbers: every
    arithmetic operation, [Math.sin], [Math.cos] and [Math.sqrt] is exact.
    IEEE rounding, NaN and signed zeros are outside the model.

    React.  The frame callback reads the state of the last render and queues
    state updates; the updates are applied in the order in which they were
    queued.  A frame is modelled as a function from the world of the last
    render to the world of the next one. *)

From Stdlib Require Import Reals Lra Lia ZArith List Permutation Bool String.
Import ListNotations.
Open Scope R_scope.

(* ================================================================== *)
(** ** JavaScript primitives *)

Module Js.

Definition ltb (a b : R) : bool := if Rlt_dec a b then true else false.
Definition geb (a b : R) : bool := if Rge_dec a b then true else false.

(** [Math.abs], [Math.sign], [Math.round], [Math.min], [Math.pow]. *)
Definition abs (a : R) : R := Rabs a.
Definition sign (a : R) : R :=
  if ltb 0 a then 1 else if ltb a 0 then -1 else 0.
(** [Math.round] rounds to the nearest integer, ties towards +infinity. *)
Definition round (a : R) : R := IZR (Zfloor (a + / 2)).
Definition min (a b : R) : R := if ltb b a then b else a.
Definition pow (a : R) (n : nat) : R := a ^ n.

(** [Array.prototype.map] with the element index. *)
Fixpoint mapi_from {A B : Type} (f : A -> nat -> B) (i : nat) (l : list A)
  : list B :=
  match l with
  | [] => []
  | a :: l' => f a i :: mapi_from f (S i) l'
  end.
Definition mapi {A B : Type} (f : A -> nat -> B) (l : list A) : list B :=
  mapi_from f 0 l.

(** [Array.prototype.includes] on an array of numbers. *)
Definition includes (l : list Z) (i : Z) : bool := existsb (Z.eqb i) l.

(** [a[i] = v] on an index inside the array. *)
Fixpoint set_nth {A : Type} (i : nat) (v : A) (l : list A) : list A :=
  match l, i with
  | [], _ => []
  | _ :: l', O => v :: l'
  | a :: l', S i' => a :: set_nth i' v l'
  end.

End Js.

(* ================================================================== *)
(** ** three.js: Vector3 and Quaternion *)

Module Vector3.

Record t : Type := new { x : R; y : R; z : R }.

Definition sub (a b : t) : t := new (x a - x b) (y a - y b) (z a - z b).
Definition add (a b : t) : t := new (x a + x b) (y a + y b) (z a + z b).
Definition multiplyScalar (a : t) (s : R) : t :=
  new (x a * s) (y a * s) (z a * s).
Definition divideScalar (a : t) (s : R) : t := multiplyScalar a (1 / s).
Definition length (a : t) : R := sqrt (x a * x a + y a * y a + z a * z a).
(** [this.divideScalar( this.length() || 1 )] *)
Definition normalize (a : t) : t :=
  divideScalar a (if Req_dec_T (length a) 0 then 1 else length a).

Definition setX (a : t) (v : R) : t := new v (y a) (z a).
Definition setY (a : t) (v : R) : t := new (x a) v (z a).
Definition setZ (a : t) (v : R) : t := new (x a) (y a) v.

(** [getComponent] throws on an index other than 0, 1, 2; the component
    only calls it with an index taken from the axis table. *)
Definition getComponent (a : t) (i : nat) : R :=
  match i with
  | 0%nat => x a
  | 1%nat => y a
  | _ => z a
  end.

End Vector3.

Module Quaternion.

Record t : Type := mk { x : R; y : R; z : R; w : R }.

(** [new THREE.Quaternion()] *)
Definition new : t := mk 0 0 0 1.

Definition setFromAxisAngle (axis : Vector3.t) (angle : R) : t :=
  let halfAngle := angle / 2 in
  let s := sin halfAngle in
  mk (Vector3.x axis * s) (Vector3.y axis * s) (Vector3.z axis * s)
     (cos halfAngle).

Definition multiplyQuaternions (a b : t) : t :=
  mk (x a * w b + w a * x b + y a * z b - z a * y b)
     (y a * w b + w a * y b + z a * x b - x a * z b)
     (z a * w b + w a * z b + x a * y b - y a * x b)
     (w a * w b - x a * x b - y a * y b - z a * z b).

(** [this.premultiply(q)] is [multiplyQuaternions(q, this)]. *)
Definition premultiply (this q : t) : t := multiplyQuaternions q this.

End Quaternion.

Module Three.

(** [Vector3.applyQuaternion]: [t = 2 * cross(q.xyz, v)],
    [v + q.w * t + cross(q.xyz, t)]. *)
Definition applyQuaternion (v : Vector3.t) (q : Quaternion.t) : Vector3.t :=
  let vx := Vector3.x v in
  let vy := Vector3.y v in
  let vz := Vector3.z v in
  let qx := Quaternion.x q in
  let qy := Quaternion.y q in
  let qz := Quaternion.z q in
  let qw := Quaternion.w q in
  let tx := 2 * (qy * vz - qz * vy) in
  let ty := 2 * (qz * vx - qx * vz) in
  let tz := 2 * (qx * vy - qy * vx) in
  Vector3.new (vx + qw * tx + qy * tz - qz * ty)
              (vy + qw * ty + qz * tx - qx * tz)
              (vz + qw * tz + qx * ty - qy * tx).

Definition applyAxisAngle (v axis : Vector3.t) (angle : R) : Vector3.t :=
  applyQuaternion v (Quaternion.setFromAxisAngle axis angle).

(** [THREE.MathUtils.degToRad] *)
Definition degToRad (degrees : R) : R := degrees * (PI / 180).

End Three.

(* ================================================================== *)
(** ** Geometry constants *)

Definition easeInOutCubic (t : R) : R :=
  if Js.ltb t (1 / 2) then 4 * t * t * t
  else 1 - Js.pow (-2 * t + 2) 3 / 2.

Inductive Face : Type := TOP | RIGHT | BOTTOM | LEFT | FRONT | BACK.

(** The axis letters ["x"], ["y"], ["z"] of the layer table. *)
Inductive AxisName : Type := ax | ay | az.

Definition ROTATION_AXES (face : Face) : Vector3.t :=
  match face with
  | TOP => Vector3.normalize (Vector3.new 0 1 0)
  | RIGHT => Vector3.normalize (Vector3.new 1 0 0)
  | BOTTOM => Vector3.normalize (Vector3.new 0 (-1) 0)
  | LEFT => Vector3.normalize (Vector3.new (-1) 0 0)
  | FRONT => Vector3.normalize (Vector3.new 0 0 1)
  | BACK => Vector3.normalize (Vector3.new 0 0 (-1))
  end.

Record Layer : Type := { axis : AxisName; value : Z }.

Definition LAYER_INDICES (face : Face) : Layer :=
  match face with
  | RIGHT => {| axis := ax; value := 1 |}
  | LEFT => {| axis := ax; value := -1 |}
  | TOP => {| axis := ay; value := 1 |}
  | BOTTOM => {| axis := ay; value := -1 |}
  | FRONT => {| axis := az; value := 1 |}
  | BACK => {| axis := az; value := -1 |}
  end.

Definition ROTATION_SEQUENCE : list Face :=
  [RIGHT; FRONT; BACK; LEFT; TOP; BOTTOM].

Definition AXIS_TO_INDEX (a : AxisName) : nat :=
  match a with ax => 0%nat | ay => 1%nat | az => 2%nat end.

(** The constants on which the two copies of the component differ. *)
Record Variant : Type := {
  ROTATION_DIRECTIONS : Face -> R;
  CUBE_SIZE : R;
  CUBE_GAP : R;
  EPSILON : R;
  (** [rotateLayer] of the main variant also snaps [position]. *)
  snapsPosition : bool
}.

(** [src/components/Cube.tsx] *)
Definition mainVariant : Variant := {|
  ROTATION_DIRECTIONS := fun face =>
    match face with
    | RIGHT => 1 | LEFT => -1 | TOP => 1 | BOTTOM => -1
    | FRONT => 1 | BACK => -1
    end;
  CUBE_SIZE := 1;
  CUBE_GAP := 1 / 100000;
  EPSILON := 1 / 1000000000;
  snapsPosition := true
|}.

(** The copy with the overshoot animation. *)
Definition overshootVariant : Variant := {|
  ROTATION_DIRECTIONS := fun _ => 1;
  CUBE_SIZE := 1;
  CUBE_GAP := 1 / 1000000;
  EPSILON := 1 / 10000000;
  snapsPosition := false
|}.

(* ================================================================== *)
(** ** Grid state and the operations on it *)

Definition Z3 : Type := (Z * Z * Z)%type.

(** The three nested loops of [getTargetPositions]. *)
Definition getTargetPositions : list Z3 :=
  let range := [-1; 0; 1]%Z in
  flat_map (fun x =>
    flat_map (fun y =>
      flat_map (fun z =>
        if ((x =? 0) && (y =? 0) && (z =? 0))%Z then [] else [(x, y, z)])
      range) range) range.

Record CubiePosition : Type := {
  position : Vector3.t;
  indices : Vector3.t;
  quaternion : Quaternion.t;
  type : string
}.

Definition cubieType (x y z : Z) : string :=
  let zeroCount :=
    List.length (filter (fun coord => (coord =? 0)%Z) [x; y; z]) in
  if (zeroCount =? 1)%nat then "edge"%string
  else if (zeroCount =? 2)%nat then "center"%string
  else "corner"%string.

Section Grid.

Variable V : Variant.

Definition initialCubiePositions : list CubiePosition :=
  map (fun pos =>
         let '(x, y, z) := pos in
         let posX := IZR x * (CUBE_SIZE V + CUBE_GAP V) in
         let posY := IZR y * (CUBE_SIZE V + CUBE_GAP V) in
         let posZ := IZR z * (CUBE_SIZE V + CUBE_GAP V) in
         {| position := Vector3.new posX posY posZ;
            indices := Vector3.new (IZR x) (IZR y) (IZR z);
            quaternion := Quaternion.new;
            type := cubieType x y z |})
      getTargetPositions.

Definition getFaceCenter (face : Face) : Vector3.t :=
  let axis := axis (LAYER_INDICES face) in
  let value := IZR (value (LAYER_INDICES face)) in
  let center := Vector3.new 0 0 0 in
  match axis with
  | ax => Vector3.setX center (value * (CUBE_SIZE V + CUBE_GAP V))
  | ay => Vector3.setY center (value * (CUBE_SIZE V + CUBE_GAP V))
  | az => Vector3.setZ center (value * (CUBE_SIZE V + CUBE_GAP V))
  end.

Definition getCubiesInLayer (cubiePositions : list CubiePosition)
    (face : Face) : list Z :=
  let axis := axis (LAYER_INDICES face) in
  let value := IZR (value (LAYER_INDICES face)) in
  let axisIndex := AXIS_TO_INDEX axis in
  filter (fun i => negb (i =? -1)%Z)
    (Js.mapi
       (fun cubie i =>
          if Js.ltb
               (Js.abs (Vector3.getComponent (indices cubie) axisIndex
                        - value))
               (EPSILON V)
          then Z.of_nat i else (-1)%Z)
       cubiePositions).

Definition snapComponent (c : R) : R :=
  if Js.ltb (Js.abs c) (EPSILON V) then 0
  else Js.sign c * Js.round (Js.abs c).

Definition snapToGrid (vec : Vector3.t) : Vector3.t :=
  let x := snapComponent (Vector3.x vec) in
  let y := snapComponent (Vector3.y vec) in
  let z := snapComponent (Vector3.z vec) in
  Vector3.new x y z.

Definition calculateLayerRotation (cubiePositions : list CubiePosition)
    (face : Face) (angle : R) : list CubiePosition :=
  let cubiesInLayer := getCubiesInLayer cubiePositions face in
  let axis := ROTATION_AXES face in
  let direction := ROTATION_DIRECTIONS V face in
  let centerPoint := getFaceCenter face in
  let rotationQuat :=
    Quaternion.setFromAxisAngle axis (angle * direction) in
  Js.mapi
    (fun cubie index =>
       if negb (Js.includes cubiesInLayer (Z.of_nat index)) then cubie
       else
         let newPosition :=
           Vector3.add
             (Three.applyAxisAngle
                (Vector3.sub (position cubie) centerPoint)
                axis (angle * direction))
             centerPoint in
         let newIndices :=
           Three.applyAxisAngle (indices cubie) axis (angle * direction) in
         let newQuaternion :=
           Quaternion.premultiply (quaternion cubie) rotationQuat in
         {| position := newPosition;
            indices := newIndices;
            quaternion := newQuaternion;
            type := type cubie |})
    cubiePositions.

Definition rotateLayer (cubiePositions : list CubiePosition) (face : Face)
  : list CubiePosition :=
  let angle := PI / 2 in
  let rotatedPositions := calculateLayerRotation cubiePositions face angle in
  map (fun cubie =>
         {| position :=
              if snapsPosition V then snapToGrid (position cubie)
              else position cubie;
            indices := snapToGrid (indices cubie);
            quaternion := quaternion cubie;
            type := type cubie |})
      rotatedPositions.

(** A finite sequence of committed quarter turns. *)
Definition commitTurns (faces : list Face) (cubies : list CubiePosition)
  : list CubiePosition :=
  fold_left rotateLayer faces cubies.

End Grid.

(* ================================================================== *)
(** ** The frame driver *)

(** What the frame driver touches of a [THREE.Group]: the transform of a
    cubie's group and the Euler rotation of the outer group. *)
Record Object3D : Type := {
  refPosition : Vector3.t;
  refQuaternion : Quaternion.t
}.

Record Group : Type := { rotationX : R; rotationY : R }.

Inductive Callback : Type := StartNextRotation | StartNewSequence.

(** A pending [setTimeout]: the callback and its delay in milliseconds. *)
Record Timer : Type := { callback : Callback; delay : Z }.

(** [cubie.position.copy(tempCubie.position)] and the same for the
    quaternion, guarded by the null check on the ref. *)
Definition copyTransform (source : list CubiePosition)
    (refs : list (option Object3D)) (index : Z) : list (option Object3D) :=
  match nth_error refs (Z.to_nat index), nth_error source (Z.to_nat index) with
  | Some (Some _), Some tempCubie =>
      Js.set_nth (Z.to_nat index)
        (Some {| refPosition := position tempCubie;
                 refQuaternion := quaternion tempCubie |})
        refs
  | _, _ => refs
  end.

(** [cubiesInLayer.forEach(index => ...)] *)
Definition publish (cubiesInLayer : list Z) (source : list CubiePosition)
    (refs : list (option Object3D)) : list (option Object3D) :=
  fold_left (copyTransform source) cubiesInLayer refs.

Definition spin (speedY speedX delta : R) (g : option Group) : option Group :=
  match g with
  | Some g =>
      Some {| rotationY := rotationY g + delta * speedY;
              rotationX := rotationX g + delta * speedX |}
  | None => None
  end.

(** *** Main variant *)

Module Main.

Record RotationState : Type := {
  isRotating : bool;
  currentFace : option Face;
  progress : R;
  sequenceIndex : nat;
  inSequencePause : bool;
  inRotationPause : bool
}.

Record World : Type := {
  groupRef : option Group;
  cubieRefs : list (option Object3D);
  cubiePositions : list CubiePosition;
  rotationState : RotationState;
  timers : list Timer
}.

Definition initialRotationState : RotationState := {|
  isRotating := false;
  currentFace := None;
  progress := 0;
  sequenceIndex := 0;
  inSequencePause := false;
  inRotationPause := false
|}.

Definition rotationSpeed : R := 85 / 100.
Definition cubeRotationSpeed : R := 5 / 100.

Definition startNextRotation (prev : RotationState) : RotationState :=
  let newSequenceIndex :=
    ((sequenceIndex prev + 1) mod List.length ROTATION_SEQUENCE)%nat in
  if (newSequenceIndex =? 0)%nat && negb (inSequencePause prev) then
    {| isRotating := isRotating prev;
       currentFace := currentFace prev;
       progress := progress prev;
       sequenceIndex := sequenceIndex prev;
       inSequencePause := true;
       inRotationPause := false |}
  else
    {| isRotating := true;
       currentFace := nth_error ROTATION_SEQUENCE newSequenceIndex;
       progress := 0;
       sequenceIndex := newSequenceIndex;
       inSequencePause := false;
       inRotationPause := false |}.

Definition useFrame (w : World) (delta : R) : World :=
  let groupRef' :=
    spin cubeRotationSpeed (cubeRotationSpeed / 2) delta (groupRef w) in
  let rs := rotationState w in
  match isRotating rs, currentFace rs with
  | true, Some face =>
      let rotationDuration := rotationSpeed in
      let newProgress := progress rs + delta / rotationDuration in
      let progress' := Js.min newProgress 1 in
      let easedProgress := easeInOutCubic progress' in
      let angleToRotate := (PI / 2) * easedProgress in
      if Js.geb progress' 1 then
        let finalPositions :=
          rotateLayer mainVariant (cubiePositions w) face in
        let cubiesInLayer :=
          getCubiesInLayer mainVariant (cubiePositions w) face in
        {| groupRef := groupRef';
           cubieRefs := publish cubiesInLayer finalPositions (cubieRefs w);
           cubiePositions := finalPositions;
           rotationState :=
             {| isRotating := false;
                currentFace := currentFace rs;
                progress := 0;
                sequenceIndex := sequenceIndex rs;
                inSequencePause := inSequencePause rs;
                inRotationPause := true |};
           timers :=
             timers w ++ [{| callback := StartNextRotation; delay := 1500 |}]
        |}
      else
        let rotatedPositions :=
          calculateLayerRotation mainVariant (cubiePositions w) face
            angleToRotate in
        let cubiesInLayer :=
          getCubiesInLayer mainVariant (cubiePositions w) face in
        {| groupRef := groupRef';
           cubieRefs := publish cubiesInLayer rotatedPositions (cubieRefs w);
           cubiePositions := cubiePositions w;
           rotationState :=
             {| isRotating := isRotating rs;
                currentFace := currentFace rs;
                progress := newProgress;
                sequenceIndex := sequenceIndex rs;
                inSequencePause := inSequencePause rs;
                inRotationPause := inRotationPause rs |};
           timers := timers w |}
  | _, _ =>
      {| groupRef := groupRef';
         cubieRefs := cubieRefs w;
         cubiePositions := cubiePositions w;
         rotationState := rs;
         timers := timers w |}
  end.

(** The timer of the sequence-pause effect. *)
Definition startNewSequence (prev : RotationState) : RotationState :=
  {| isRotating := true;
     currentFace := nth_error ROTATION_SEQUENCE 0;
     progress := progress prev;
     sequenceIndex := 0;
     inSequencePause := false;
     inRotationPause := inRotationPause prev |}.

(** A timer fires.  Entering the sequence pause starts the timer of the
    effect that watches [inSequencePause]. *)
Definition fire (cb : Callback) (w : World) : World :=
  match cb with
  | StartNextRotation =>
      let rs := startNextRotation (rotationState w) in
      {| groupRef := groupRef w;
         cubieRefs := cubieRefs w;
         cubiePositions := cubiePositions w;
         rotationState := rs;
         timers :=
           if inSequencePause rs && negb (inSequencePause (rotationState w))
           then timers w ++ [{| callback := StartNewSequence; delay := 1000 |}]
           else timers w |}
  | StartNewSequence =>
      {| groupRef := groupRef w;
         cubieRefs := cubieRefs w;
         cubiePositions := cubiePositions w;
         rotationState := startNewSequence (rotationState w);
         timers := timers w |}
  end.

End Main.

(** *** Overshoot variant *)

Module Overshoot.

Record RotationState : Type := {
  isRotating : bool;
  currentFace : option Face;
  progress : R;
  sequenceIndex : nat;
  inSequencePause : bool;
  inRotationPause : bool;
  overshootPhase : bool;
  overshootReturn : bool
}.

(** A partial update of the rotation state. *)
Record RotationStateUpdates : Type := {
  isRotating' : option bool;
  currentFace' : option (option Face);
  progress' : option R;
  sequenceIndex' : option nat;
  inSequencePause' : option bool;
  inRotationPause' : option bool;
  overshootPhase' : option bool;
  overshootReturn' : option bool
}.

Definition noUpdates : RotationStateUpdates := {|
  isRotating' := None; currentFace' := None; progress' := None;
  sequenceIndex' := None; inSequencePause' := None;
  inRotationPause' := None; overshootPhase' := None;
  overshootReturn' := None
|}.

Definition orElse {A : Type} (o : option A) (d : A) : A :=
  match o with Some a => a | None => d end.

(** [setRotationState((prev) => ({ ...prev, ...updates }))] *)
Definition updateRotationState (prev : RotationState)
    (updates : RotationStateUpdates) : RotationState := {|
  isRotating := orElse (isRotating' updates) (isRotating prev);
  currentFace := orElse (currentFace' updates) (currentFace prev);
  progress := orElse (progress' updates) (progress prev);
  sequenceIndex := orElse (sequenceIndex' updates) (sequenceIndex prev);
  inSequencePause :=
    orElse (inSequencePause' updates) (inSequencePause prev);
  inRotationPause :=
    orElse (inRotationPause' updates) (inRotationPause prev);
  overshootPhase := orElse (overshootPhase' updates) (overshootPhase prev);
  overshootReturn :=
    orElse (overshootReturn' updates) (overshootReturn prev)
|}.

Record World : Type := {
  groupRef : option Group;
  cubieRefs : list (option Object3D);
  cubiePositions : list CubiePosition;
  rotationState : RotationState;
  timers : list Timer
}.

Definition initialRotationState : RotationState := {|
  isRotating := false;
  currentFace := None;
  progress := 0;
  sequenceIndex := 0;
  inSequencePause := false;
  inRotationPause := false;
  overshootPhase := false;
  overshootReturn := false
|}.

(** The branch of the frame that selects the animated angle: the queued
    state updates, the grid state to commit, [isRotationComplete] and
    [angleToRotate]. *)
Definition animationPhase (rs : RotationState)
    (cubies : list CubiePosition) (face : Face) (newProgress : R)
  : RotationState * list CubiePosition * bool * R :=
  let baseRotation := PI / 2 in
  let overshootAmount := Three.degToRad 3 in
  if overshootPhase rs then
    if Js.geb newProgress 1 then
      (updateRotationState rs
         {| isRotating' := None; currentFace' := None;
            progress' := Some 0; sequenceIndex' := None;
            inSequencePause' := None; inRotationPause' := None;
            overshootPhase' := Some false;
            overshootReturn' := Some true |},
       cubies, false, baseRotation + overshootAmount)
    else
      let easedProgress := easeInOutCubic newProgress in
      (rs, cubies, false,
       baseRotation * easedProgress + overshootAmount * easedProgress)
  else if overshootReturn rs then
    if Js.geb newProgress 1 then
      (rs, rotateLayer overshootVariant cubies face, true, baseRotation)
    else
      let easedProgress := easeInOutCubic newProgress in
      (rs, cubies, false,
       baseRotation + overshootAmount * (1 - easedProgress))
  else
    if Js.geb newProgress 1 then
      (updateRotationState rs
         {| isRotating' := None; currentFace' := None;
            progress' := Some 0; sequenceIndex' := None;
            inSequencePause' := None; inRotationPause' := None;
            overshootPhase' := Some true;
            overshootReturn' := None |},
       cubies, false, baseRotation)
    else
      let easedProgress := easeInOutCubic newProgress in
      (rs, cubies, false, baseRotation * easedProgress).

Definition useFrame (w : World) (delta : R) : World :=
  let groupRef' := spin (1 / 100) (5 / 1000) delta (groupRef w) in
  let rs := rotationState w in
  let cubies := cubiePositions w in
  let '(rs', cubies', refs', timers') :=
    match isRotating rs, currentFace rs with
    | true, Some face =>
        let cubiesInLayer := getCubiesInLayer overshootVariant cubies face in
        let rotationDuration := 8 / 10 in
        let newProgress := progress rs + delta / rotationDuration in
        let '(rs1, cubies1, isRotationComplete, angleToRotate) :=
          animationPhase rs cubies face newProgress in
        let tempPositions :=
          calculateLayerRotation overshootVariant cubies TOP angleToRotate in
        let refs1 := publish cubiesInLayer tempPositions (cubieRefs w) in
        if isRotationComplete then
          (updateRotationState rs1
             {| isRotating' := Some false; currentFace' := None;
                progress' := Some 0; sequenceIndex' := None;
                inSequencePause' := None; inRotationPause' := Some true;
                overshootPhase' := Some false;
                overshootReturn' := Some false |},
           cubies1, refs1,
           timers w ++ [{| callback := StartNextRotation; delay := 1000 |}])
        else
          (updateRotationState rs1
             {| isRotating' := None; currentFace' := None;
                progress' := Some newProgress; sequenceIndex' := None;
                inSequencePause' := None; inRotationPause' := None;
                overshootPhase' := None; overshootReturn' := None |},
           cubies1, refs1, timers w)
    | _, _ =>
        if negb (inRotationPause rs) && negb (inSequencePause rs)
           && negb (isRotating rs)
        then
          (updateRotationState rs
             {| isRotating' := Some true;
                currentFace' := Some (nth_error ROTATION_SEQUENCE 0);
                progress' := Some 0; sequenceIndex' := Some 0%nat;
                inSequencePause' := Some false;
                inRotationPause' := Some false;
                overshootPhase' := Some false;
                overshootReturn' := Some false |},
           cubies, cubieRefs w, timers w)
        else (rs, cubies, cubieRefs w, timers w)
    end in
  let refs'' :=
    if negb (isRotating rs) then
      publish (map Z.of_nat (seq 0 (List.length cubies))) cubies refs'
    else refs' in
  {| groupRef := groupRef';
     cubieRefs := refs'';
     cubiePositions := cubies';
     rotationState := rs';
     timers := timers' |}.

(** A timer fires: [startNextRotation] and the callback of the timer
    that it starts at the end of a sequence. *)
Definition fire (cb : Callback) (w : World) : World :=
  let rs := rotationState w in
  match cb with
  | StartNextRotation =>
      let nextSequenceIndex :=
        ((sequenceIndex rs + 1) mod List.length ROTATION_SEQUENCE)%nat in
      if (nextSequenceIndex =? 0)%nat then
        {| groupRef := groupRef w;
           cubieRefs := cubieRefs w;
           cubiePositions := cubiePositions w;
           rotationState :=
             updateRotationState rs
               {| isRotating' := None; currentFace' := None;
                  progress' := None;
                  sequenceIndex' := Some nextSequenceIndex;
                  inSequencePause' := Some true;
                  inRotationPause' := Some false;
                  overshootPhase' := None; overshootReturn' := None |};
           timers :=
             timers w ++ [{| callback := StartNewSequence; delay := 1500 |}]
        |}
      else
        {| groupRef := groupRef w;
           cubieRefs := cubieRefs w;
           cubiePositions := cubiePositions w;
           rotationState :=
             updateRotationState rs
               {| isRotating' := Some true;
                  currentFace' :=
                    Some (nth_error ROTATION_SEQUENCE nextSequenceIndex);
                  progress' := Some 0;
                  sequenceIndex' := Some nextSequenceIndex;
                  inSequencePause' := None;
                  inRotationPause' := Some false;
                  overshootPhase' := Some false;
                  overshootReturn' := Some false |};
           timers := timers w |}
  | StartNewSequence =>
      {| groupRef := groupRef w;
         cubieRefs := cubieRefs w;
         cubiePositions := cubiePositions w;
         rotationState :=
           updateRotationState rs
             {| isRotating' := Some true;
                currentFace' := Some (nth_error ROTATION_SEQUENCE 0);
                progress' := Some 0;
                sequenceIndex' := None;
                inSequencePause' := Some false;
                inRotationPause' := None;
                overshootPhase' := Some false;
                overshootReturn' := Some false |};
         timers := timers w |}
  end.

End Overshoot.

(* ================================================================== *)
(** ** The lattice view of the grid state

    Between turns every grid index is an integer vector.  The definitions
    below describe a committed quarter turn on integer triples; the lemmas
    further down show that [rotateLayer] computes exactly this on the
    real-valued state. *)

Definition embed (p : Z3) : Vector3.t :=
  let '(a, b, c) := p in Vector3.new (IZR a) (IZR b) (IZR c).

Definition integerVector (v : Vector3.t) : Prop := exists p, v = embed p.

Definition unitRange (a : Z) : Prop := (a = -1 \/ a = 0 \/ a = 1)%Z.

(** The canonical solved set: the points of {-1,0,1}^3 other than the
    origin. *)
Definition canonicalPoint (v : Vector3.t) : Prop :=
  exists a b c : Z,
    unitRange a /\ unitRange b /\ unitRange c /\
    (a, b, c) <> (0, 0, 0)%Z /\ v = embed (a, b, c).

Definition inCube (p : Z3) : Prop :=
  let '(a, b, c) := p in unitRange a /\ unitRange b /\ unitRange c.

Definition componentZ (a : AxisName) (p : Z3) : Z :=
  let '(x, y, z) := p in
  match a with ax => x | ay => y | az => z end.

Definition inLayerZ (face : Face) (p : Z3) : bool :=
  (componentZ (axis (LAYER_INDICES face)) p =? value (LAYER_INDICES face))%Z.

(** A quarter turn about the positive ([true]) or the negative ([false])
    coordinate axis. *)
Definition quarterZ (positive : bool) (a : AxisName) (p : Z3) : Z3 :=
  let '(x, y, z) := p in
  match a, positive with
  | ax, true => (x, - z, y)
  | ax, false => (x, z, - y)
  | ay, true => (z, y, - x)
  | ay, false => (- z, y, x)
  | az, true => (- y, x, z)
  | az, false => (y, - x, z)
  end%Z.

Definition commitZ (sense : Face -> bool) (face : Face) (p : Z3) : Z3 :=
  if inLayerZ face p then quarterZ (sense face) (axis (LAYER_INDICES face)) p
  else p.

(** The sense of the turn of each face: the sign of the stored axis times
    the sign of the direction. *)
Definition mainSense (face : Face) : bool := true.

Definition overshootSense (face : Face) : bool :=
  (0 <? value (LAYER_INDICES face))%Z.

Definition Z3_eqb (p q : Z3) : bool :=
  let '(a, b, c) := p in
  let '(a', b', c') := q in
  ((a =? a') && (b =? b') && (c =? c'))%Z.

Fixpoint removeOne (p : Z3) (l : list Z3) : option (list Z3) :=
  match l with
  | [] => None
  | q :: l' =>
      if Z3_eqb p q then Some l'
      else match removeOne p l' with
           | Some r => Some (q :: r)
           | None => None
           end
  end.

(** A checker for [Permutation] on lists of integer triples. *)
Fixpoint permb (l1 l2 : list Z3) : bool :=
  match l1 with
  | [] => match l2 with [] => true | _ => false end
  | p :: l1' =>
      match removeOne p l2 with
      | Some l2' => permb l1' l2'
      | None => false
      end
  end.

Definition allFaces : list Face := [TOP; RIGHT; BOTTOM; LEFT; FRONT; BACK].

Definition opposite (face : Face) : Face :=
  match face with
  | TOP => BOTTOM | BOTTOM => TOP
  | RIGHT => LEFT | LEFT => RIGHT
  | FRONT => BACK | BACK => FRONT
  end.

(** The unit vector of a coordinate axis. *)
Definition unitAxis (a : AxisName) : Vector3.t :=
  match a with
  | ax => Vector3.new 1 0 0
  | ay => Vector3.new 0 1 0
  | az => Vector3.new 0 0 1
  end.

Section Membership.

Variable V : Variant.

(** Membership of a grid index in the layer of a face, as
    [getCubiesInLayer] tests it. *)
Definition inLayer (face : Face) (v : Vector3.t) : bool :=
  Js.ltb
    (Js.abs (Vector3.getComponent v (AXIS_TO_INDEX (axis (LAYER_INDICES face)))
             - IZR (value (LAYER_INDICES face))))
    (EPSILON V).

(** What [calculateLayerRotation] builds for a cubie of the layer. *)
Definition rotateCubie (face : Face) (angle : R) (cubie : CubiePosition)
  : CubiePosition :=
  let axis := ROTATION_AXES face in
  let direction := ROTATION_DIRECTIONS V face in
  {| position :=
       Vector3.add
         (Three.applyAxisAngle
            (Vector3.sub (position cubie) (getFaceCenter V face))
            axis (angle * direction))
         (getFaceCenter V face);
     indices := Three.applyAxisAngle (indices cubie) axis (angle * direction);
     quaternion :=
       Quaternion.premultiply (quaternion cubie)
         (Quaternion.setFromAxisAngle axis (angle * direction));
     type := type cubie |}.

(** What [rotateLayer] builds from a rotated cubie. *)
Definition snapCubie (cubie : CubiePosition) : CubiePosition :=
  {| position :=
       if snapsPosition V then snapToGrid V (position cubie)
       else position cubie;
     indices := snapToGrid V (indices cubie);
     quaternion := quaternion cubie;
     type := type cubie |}.

Definition commitCubie (face : Face) (cubie : CubiePosition)
  : CubiePosition :=
  snapCubie
    (if inLayer face (indices cubie) then rotateCubie face (PI / 2) cubie
     else cubie).

End Membership.

(** *** The rotation as the specification words it *)

(** The pivot of a face: the unit vector of the face's axis scaled by
    [value * (unitSize + gap)]. *)
Definition pivot (V : Variant) (face : Face) : Vector3.t :=
  Vector3.multiplyScalar
    (unitAxis (axis (LAYER_INDICES face)))
    (IZR (value (LAYER_INDICES face)) * (CUBE_SIZE V + CUBE_GAP V)).

Definition cross (a b : Vector3.t) : Vector3.t :=
  Vector3.new
    (Vector3.y a * Vector3.z b - Vector3.z a * Vector3.y b)
    (Vector3.z a * Vector3.x b - Vector3.x a * Vector3.z b)
    (Vector3.x a * Vector3.y b - Vector3.y a * Vector3.x b).

Definition dot (a b : Vector3.t) : R :=
  Vector3.x a * Vector3.x b + Vector3.y a * Vector3.y b
  + Vector3.z a * Vector3.z b.

(** The rotation of [v] about the unit vector [k] by [theta]:
    [v cos theta + (k x v) sin theta + k (k . v) (1 - cos theta)]. *)
Definition axisAngleRotation (k : Vector3.t) (theta : R) (v : Vector3.t)
  : Vector3.t :=
  Vector3.add
    (Vector3.add
       (Vector3.multiplyScalar v (cos theta))
       (Vector3.multiplyScalar (cross k v) (sin theta)))
    (Vector3.multiplyScalar k (dot k v * (1 - cos theta))).

(** The unit quaternion of that rotation and the Hamilton product. *)
Definition rotationQuaternion (k : Vector3.t) (theta : R) : Quaternion.t :=
  Quaternion.mk (Vector3.x k * sin (theta / 2)) (Vector3.y k * sin (theta / 2))
                (Vector3.z k * sin (theta / 2)) (cos (theta / 2)).

Definition specRotate (V : Variant) (face : Face) (angle : R)
    (cubie : CubiePosition) : CubiePosition :=
  let k := ROTATION_AXES face in
  let theta := angle * ROTATION_DIRECTIONS V face in
  {| position :=
       Vector3.add
         (axisAngleRotation k theta
            (Vector3.sub (position cubie) (pivot V face)))
         (pivot V face);
     indices := axisAngleRotation k theta (indices cubie);
     quaternion :=
       Quaternion.multiplyQuaternions (rotationQuaternion k theta)
         (quaternion cubie);
     type := type cubie |}.

(** The transform the frame driver publishes for a cubie. *)
Definition transformOf (cubie : CubiePosition) : Object3D :=
  {| refPosition := position cubie; refQuaternion := quaternion cubie |}.

(** Iterating a state transformer. *)
Fixpoint iterate {A : Type} (n : nat) (f : A -> A) (a : A) : A :=
  match n with
  | O => a
  | S n' => iterate n' f (f a)
  end.

(** A checker for [NoDup] on lists of integer triples. *)
Fixpoint nodupb (l : list Z3) : bool :=
  match l with
  | [] => true
  | p :: l' => negb (existsb (Z3_eqb p) l') && nodupb l'
  end.

(** Every cubie sits on a lattice point of the cube and its position is
    its grid index scaled by [k]. *)
Definition scaledBy (k : R) (l : list CubiePosition) : Prop :=
  Forall (fun c => exists p, inCube p /\ indices c = embed p
                             /\ position c = Vector3.multiplyScalar (embed p) k)
         l.

(** The lattice image of a sequence of committed quarter turns. *)
Definition commitTurnsZ (sense : Face -> bool) (faces : list Face)
    (zl : list Z3) : list Z3 :=
  fold_left (fun zl face => map (commitZ sense face) zl) faces zl.

(** A property of both copies of the component. *)
Definition bothVariants (P : Variant -> Prop) : Prop :=
  P mainVariant /\ P overshootVariant.

(** Every stored position is the grid index scaled by [k]. *)
Definition positionsFollowGrid (k : R) (l : list CubiePosition) : Prop :=
  Forall (fun c => position c = Vector3.multiplyScalar (indices c) k) l.

(** The same face turned and committed [n] times. *)
Definition turnTimes (V : Variant) (n : nat) (face : Face)
    (l : list CubiePosition) : list CubiePosition :=
  iterate n (fun l => rotateLayer V l face) l.

(** What a ref holds after the frame driver has copied the transform of
    [source[i]] into it: a null ref stays null. *)
Definition published (source : list CubiePosition)
    (ref : option (option Object3D)) (i : nat) : option (option Object3D) :=
  match ref, nth_error source i with
  | Some (Some _), Some tempCubie => Some (Some (transformOf tempCubie))
  | _, _ => ref
  end.

(** A world of the main variant in the middle of a turn of the RIGHT face,
    every ref mounted and showing the solved configuration. *)
Definition mainExample : Main.World := {|
  Main.groupRef := Some {| rotationX := 0; rotationY := 0 |};
  Main.cubieRefs :=
    map (fun c => Some (transformOf c)) (initialCubiePositions mainVariant);
  Main.cubiePositions := initialCubiePositions mainVariant;
  Main.rotationState :=
    {| Main.isRotating := true;
       Main.currentFace := Some RIGHT;
       Main.progress := 1 / 2;
       Main.sequenceIndex := 0;
       Main.inSequencePause := false;
       Main.inRotationPause := false |};
  Main.timers := []
|}.

(** A world of the overshoot variant in the initial phase of a turn of the
    RIGHT face at the given progress. *)
Definition overshootExample (progress0 : R) : Overshoot.World := {|
  Overshoot.groupRef := Some {| rotationX := 0; rotationY := 0 |};
  Overshoot.cubieRefs :=
    map (fun c => Some (transformOf c))
        (initialCubiePositions overshootVariant);
  Overshoot.cubiePositions := initialCubiePositions overshootVariant;
  Overshoot.rotationState :=
    {| Overshoot.isRotating := true;
       Overshoot.currentFace := Some RIGHT;
       Overshoot.progress := progress0;
       Overshoot.sequenceIndex := 0;
       Overshoot.inSequencePause := false;
       Overshoot.inRotationPause := false;
       Overshoot.overshootPhase := false;
       Overshoot.overshootReturn := false |};
  Overshoot.timers := []
|}.

(** The cubie at grid index (1, -1, -1) of the solved configuration; it is
    cubie number 17. *)
Definition cornerCubie (V : Variant) : CubiePosition := {|
  position :=
    Vector3.new (1 * (CUBE_SIZE V + CUBE_GAP V))
                (-1 * (CUBE_SIZE V + CUBE_GAP V))
                (-1 * (CUBE_SIZE V + CUBE_GAP V));
  indices := Vector3.new 1 (-1) (-1);
  quaternion := Quaternion.new;
  type := "corner"
|}.

(** The number of coordinates of a lattice point that are not zero. *)
Definition nonzeroCoordinates (p : Z3) : nat :=
  let '(x, y, z) := p in
  List.length (filter (fun coord => negb (coord =? 0)%Z) [x; y; z]).

(** The faces whose layer holds a grid index. *)
Definition layersOf (V : Variant) (v : Vector3.t) : list Face :=
  filter (fun face => inLayer V face v) allFaces.

(** A strictly increasing list of array indices. *)
Fixpoint increasing (l : list Z) : Prop :=
  match l with
  | [] => True
  | i :: l' => match l' with
               | [] => True
               | j :: _ => (i < j)%Z
               end /\ increasing l'
  end.

(** Whether a ref is mounted. *)
Definition mounted (ref : option Object3D) : bool :=
  match ref with Some _ => true | None => false end.

(** What the timers do to the main variant between the end of a turn and
    the start of the next: [startNextRotation] fires and, when it enters the
    sequence pause, the timer of the sequence-pause effect fires after
    it. *)
Definition mainNextTurn (w : Main.World) : Main.World :=
  let w1 := Main.fire StartNextRotation w in
  if Main.inSequencePause (Main.rotationState w1)
  then Main.fire StartNewSequence w1 else w1.

(** The same for the overshoot variant, where [startNextRotation] itself
    starts the timer of the new sequence: that timer fires when it was
    started. *)
Definition overshootNextTurn (w : Overshoot.World) : Overshoot.World :=
  let w1 := Overshoot.fire StartNextRotation w in
  if (List.length (Overshoot.timers w) <? List.length (Overshoot.timers w1))%nat
  then Overshoot.fire StartNewSequence w1 else w1.

(** The overshoot variant when it is mounted: the solved configuration, the
    initial rotation state, every ref mounted at the origin. *)
Definition overshootStart : Overshoot.World := {|
  Overshoot.groupRef := Some {| rotationX := 0; rotationY := 0 |};
  Overshoot.cubieRefs :=
    map (fun _ => Some {| refPosition := Vector3.new 0 0 0;
                          refQuaternion := Quaternion.new |})
        (initialCubiePositions overshootVariant);
  Overshoot.cubiePositions := initialCubiePositions overshootVariant;
  Overshoot.rotationState := Overshoot.initialRotationState;
  Overshoot.timers := []
|}.

(** The index marks of [getCubiesInLayer] for an arbitrary test [p]: the
    index of every element that passes, in increasing order. *)
Definition layerMarks {A : Type} (p : A -> bool) (start : nat) (l : list A)
  : list Z :=
  filter (fun i => negb (i =? -1)%Z)
    (Js.mapi_from (fun a i => if p a then Z.of_nat i else (-1)%Z) start l).

(* ================================================================== *)
(** * Properties *)

(** ** Comparisons and rounding *)

Lemma ltb_true (a b : R) : a < b -> Js.ltb a b = true.
Proof. intros H. unfold Js.ltb. destruct (Rlt_dec a b); [reflexivity | contradiction]. Qed.

Lemma ltb_false (a b : R) : b <= a -> Js.ltb a b = false.
Proof. intros H. unfold Js.ltb. destruct (Rlt_dec a b); [lra | reflexivity]. Qed.

Lemma ltb_spec (a b : R) : Js.ltb a b = true <-> a < b.
Proof.
  split; [| apply ltb_true].
  unfold Js.ltb. destruct (Rlt_dec a b); [trivial | discriminate].
Qed.

Lemma geb_true (a b : R) : a >= b -> Js.geb a b = true.
Proof. intros H. unfold Js.geb. destruct (Rge_dec a b); [reflexivity | contradiction]. Qed.

Lemma geb_false (a b : R) : a < b -> Js.geb a b = false.
Proof. intros H. unfold Js.geb. destruct (Rge_dec a b); [lra | reflexivity]. Qed.

Lemma min_below (a : R) : a < 1 -> Js.min a 1 = a.
Proof. intros H. unfold Js.min. rewrite ltb_false by lra. reflexivity. Qed.

Lemma min_above (a : R) : 1 <= a -> Js.min a 1 = 1.
Proof.
  intros H. unfold Js.min. destruct (Rle_lt_or_eq_dec _ _ H) as [Hlt | Heq].
  - rewrite ltb_true by lra. reflexivity.
  - rewrite ltb_false by lra. symmetry. exact Heq.
Qed.

Lemma round_near (c : R) (n : Z) :
  IZR n - / 2 <= c < IZR n + / 2 -> Js.round c = IZR n.
Proof.
  intros H. unfold Js.round. f_equal. apply Zfloor_eq. lra.
Qed.

Lemma sign_pos (c : R) : 0 < c -> Js.sign c = 1.
Proof. intros H. unfold Js.sign. rewrite ltb_true by assumption. reflexivity. Qed.

Lemma sign_neg (c : R) : c < 0 -> Js.sign c = -1.
Proof.
  intros H. unfold Js.sign. rewrite ltb_false by lra.
  rewrite ltb_true by assumption. reflexivity.
Qed.

Lemma sign_zero : Js.sign 0 = 0.
Proof. unfold Js.sign. rewrite !ltb_false by lra. reflexivity. Qed.

Lemma IZR_pos_ge_1 (n : Z) : (0 < n)%Z -> 1 <= IZR n.
Proof. intros H. apply (IZR_le 1 n). lia. Qed.

Lemma IZR_neg_le_m1 (n : Z) : (n < 0)%Z -> IZR n <= -1.
Proof. intros H. apply (IZR_le n (-1)). lia. Qed.

Section Snap.

Variable V : Variant.
Hypothesis eps_pos : 0 < EPSILON V.
Hypothesis eps_half : EPSILON V <= / 2.

(** Snapping absorbs any error below one half. *)
Lemma snapComponent_near (c : R) (n : Z) :
  Rabs (c - IZR n) < / 2 -> snapComponent V c = IZR n.
Proof.
  intros H. apply Rabs_def2 in H. destruct H as [Hhi Hlo].
  unfold snapComponent, Js.abs.
  destruct (Z.lt_trichotomy n 0) as [Hn | [Hn | Hn]].
  - pose proof (IZR_neg_le_m1 n Hn) as Hz.
    rewrite (Rabs_left c) by lra.
    rewrite ltb_false by lra.
    rewrite sign_neg by lra.
    rewrite (round_near (- c) (- n)) by (rewrite opp_IZR; lra).
    rewrite opp_IZR. ring.
  - subst n. simpl in *.
    destruct (Rlt_dec (Rabs c) (EPSILON V)) as [Hs | Hs].
    + rewrite ltb_true by assumption. reflexivity.
    + rewrite ltb_false by lra.
      assert (Ha : 0 <= Rabs c < / 2).
      { split; [apply Rabs_pos |]. apply Rabs_def1; lra. }
      rewrite (round_near (Rabs c) 0) by (simpl; lra). ring.
  - pose proof (IZR_pos_ge_1 n Hn) as Hz.
    rewrite (Rabs_right c) by lra.
    rewrite ltb_false by lra.
    rewrite sign_pos by lra.
    rewrite (round_near c n) by lra. ring.
Qed.

Lemma snapComponent_IZR (n : Z) : snapComponent V (IZR n) = IZR n.
Proof.
  apply snapComponent_near.
  replace (IZR n - IZR n) with 0 by ring. rewrite Rabs_R0. lra.
Qed.

Lemma snapComponent_integer (c : R) : exists n : Z, snapComponent V c = IZR n.
Proof.
  unfold snapComponent.
  destruct (Js.ltb (Js.abs c) (EPSILON V)).
  - exists 0%Z. reflexivity.
  - unfold Js.round, Js.sign.
    destruct (Js.ltb 0 c); [| destruct (Js.ltb c 0)].
    + eexists. rewrite Rmult_1_l. reflexivity.
    + exists (- Zfloor (Js.abs c + / 2))%Z. rewrite opp_IZR. ring.
    + exists 0%Z. ring.
Qed.

Lemma snapToGrid_embed (p : Z3) : snapToGrid V (embed p) = embed p.
Proof.
  destruct p as [[a b] c]. unfold snapToGrid, embed. simpl.
  rewrite !snapComponent_IZR. reflexivity.
Qed.

(** Snapping recovers a lattice point from any vector whose components are
within one half of it: this is the drift that a rotation may leave. *)
Lemma snapToGrid_near (v : Vector3.t) (a b c : Z) :
  Rabs (Vector3.x v - IZR a) < / 2 ->
  Rabs (Vector3.y v - IZR b) < / 2 ->
  Rabs (Vector3.z v - IZR c) < / 2 ->
  snapToGrid V v = embed (a, b, c).
Proof.
  intros Hx Hy Hz. unfold snapToGrid, embed.
  rewrite (snapComponent_near _ a Hx), (snapComponent_near _ b Hy),
    (snapComponent_near _ c Hz).
  reflexivity.
Qed.

Lemma snapToGrid_integer (v : Vector3.t) : integerVector (snapToGrid V v).
Proof.
  destruct (snapComponent_integer (Vector3.x v)) as [a Ha].
  destruct (snapComponent_integer (Vector3.y v)) as [b Hb].
  destruct (snapComponent_integer (Vector3.z v)) as [c Hc].
  exists (a, b, c). unfold snapToGrid, embed. rewrite Ha, Hb, Hc. reflexivity.
Qed.

Lemma snapToGrid_idempotent (v : Vector3.t) :
  snapToGrid V (snapToGrid V v) = snapToGrid V v.
Proof.
  destruct (snapToGrid_integer v) as [p Hp]. rewrite Hp.
  apply snapToGrid_embed.
Qed.

(** A lattice point scaled by a factor close to one snaps back to the
    lattice point. *)
Lemma snapToGrid_scaled (p : Z3) (k : R) :
  inCube p -> Rabs (k - 1) < / 2 ->
  snapToGrid V (Vector3.multiplyScalar (embed p) k) = embed p.
Proof.
  intros Hp Hk. destruct p as [[a b] c]. destruct Hp as (Ha & Hb & Hc).
  apply Rabs_def2 in Hk.
  unfold snapToGrid, embed, Vector3.multiplyScalar. simpl.
  assert (Hone : forall n, unitRange n -> snapComponent V (IZR n * k) = IZR n).
  { intros n [Hn | [Hn | Hn]]; subst n; apply snapComponent_near;
      apply Rabs_def1; lra. }
  rewrite !Hone by assumption. reflexivity.
Qed.

(** On integer vectors the epsilon test of the layer selector is an exact
    comparison. *)
Lemma inLayer_embed (face : Face) (p : Z3) :
  inLayer V face (embed p) = inLayerZ face p.
Proof.
  unfold inLayer, inLayerZ, Js.abs.
  assert (Hc : Vector3.getComponent (embed p)
                 (AXIS_TO_INDEX (axis (LAYER_INDICES face)))
               = IZR (componentZ (axis (LAYER_INDICES face)) p)).
  { destruct p as [[a b] c]. destruct (axis (LAYER_INDICES face)); reflexivity. }
  rewrite Hc. rewrite <- minus_IZR.
  set (d := (componentZ (axis (LAYER_INDICES face)) p
             - value (LAYER_INDICES face))%Z).
  destruct (Z.eqb_spec (componentZ (axis (LAYER_INDICES face)) p)
              (value (LAYER_INDICES face))) as [He | Hne].
  - replace d with 0%Z by (unfold d; lia). rewrite Rabs_R0.
    apply ltb_true. exact eps_pos.
  - apply ltb_false.
    destruct (Z.lt_trichotomy d 0) as [Hd | [Hd | Hd]].
    + pose proof (IZR_neg_le_m1 d Hd). rewrite Rabs_left by lra. lra.
    + unfold d in Hd. lia.
    + pose proof (IZR_pos_ge_1 d Hd). rewrite Rabs_right by lra. lra.
Qed.

End Snap.

(** ** Rotations *)

Lemma vector3_eq (a b : Vector3.t) :
  Vector3.x a = Vector3.x b -> Vector3.y a = Vector3.y b ->
  Vector3.z a = Vector3.z b -> a = b.
Proof. destruct a, b. simpl. intros -> -> ->. reflexivity. Qed.

Lemma normalize_unit (v : Vector3.t) :
  Vector3.x v * Vector3.x v + Vector3.y v * Vector3.y v
  + Vector3.z v * Vector3.z v = 1 ->
  Vector3.normalize v = v.
Proof.
  intros H. unfold Vector3.normalize, Vector3.length. rewrite H, sqrt_1.
  destruct (Req_dec_T 1 0) as [E | _]; [lra |].
  apply vector3_eq; simpl; field.
Qed.

Lemma ROTATION_AXES_unit (face : Face) :
  ROTATION_AXES face =
  Vector3.multiplyScalar (unitAxis (axis (LAYER_INDICES face)))
    (IZR (value (LAYER_INDICES face))).
Proof.
  destruct face; unfold ROTATION_AXES; rewrite normalize_unit by (simpl; ring);
    apply vector3_eq; simpl; ring.
Qed.

Lemma ROTATION_AXES_norm (face : Face) :
  dot (ROTATION_AXES face) (ROTATION_AXES face) = 1.
Proof. rewrite ROTATION_AXES_unit. destruct face; unfold dot; simpl; ring. Qed.

Lemma getFaceCenter_pivot (V : Variant) (face : Face) :
  getFaceCenter V face = pivot V face.
Proof. destruct face; apply vector3_eq; simpl; ring. Qed.

Lemma getFaceCenter_on_axis (V : Variant) (face : Face) :
  getFaceCenter V face =
  Vector3.multiplyScalar (ROTATION_AXES face) (CUBE_SIZE V + CUBE_GAP V).
Proof.
  rewrite ROTATION_AXES_unit. destruct face; apply vector3_eq; simpl; ring.
Qed.

(** The quaternion product of three.js turns a vector as the axis-angle
    formula says. *)
Lemma applyAxisAngle_axisAngleRotation (v k : Vector3.t) (theta : R) :
  dot k k = 1 ->
  Three.applyAxisAngle v k theta = axisAngleRotation k theta v.
Proof.
  intros Hk. unfold dot in Hk.
  assert (Hs : sin theta = 2 * sin (theta / 2) * cos (theta / 2)).
  { rewrite <- sin_2a. f_equal. field. }
  assert (Hc : cos theta = 1 - 2 * sin (theta / 2) * sin (theta / 2)).
  { rewrite <- cos_2a_sin. f_equal. field. }
  unfold Three.applyAxisAngle, Three.applyQuaternion,
    Quaternion.setFromAxisAngle, axisAngleRotation, cross, dot.
  rewrite Hs, Hc. clear Hs Hc.
  set (s := sin (theta / 2)). set (c := cos (theta / 2)).
  destruct v as [vx vy vz]. destruct k as [kx ky kz]. simpl in *.
  assert (Hk' : kx * kx = 1 - ky * ky - kz * kz) by lra.
  assert (Hk'' : ky * ky = 1 - kx * kx - kz * kz) by lra.
  assert (Hk''' : kz * kz = 1 - kx * kx - ky * ky) by lra.
  apply vector3_eq; simpl.
  - transitivity (vx + 2 * c * s * (ky * vz - kz * vy)
                  + 2 * s * s * (kx * ky * vy + kx * kz * vz)
                  - 2 * s * s * vx * (1 - kx * kx)); [rewrite Hk'; ring | ring].
  - transitivity (vy + 2 * c * s * (kz * vx - kx * vz)
                  + 2 * s * s * (ky * kx * vx + ky * kz * vz)
                  - 2 * s * s * vy * (1 - ky * ky)); [rewrite Hk''; ring | ring].
  - transitivity (vz + 2 * c * s * (kx * vy - ky * vx)
                  + 2 * s * s * (kz * kx * vx + kz * ky * vy)
                  - 2 * s * s * vz * (1 - kz * kz)); [rewrite Hk'''; ring | ring].
Qed.

(** A pivot on the rotation axis does not change the rotation. *)
Lemma applyAxisAngle_pivot (p k : Vector3.t) (m theta : R) :
  Vector3.add
    (Three.applyAxisAngle (Vector3.sub p (Vector3.multiplyScalar k m)) k theta)
    (Vector3.multiplyScalar k m)
  = Three.applyAxisAngle p k theta.
Proof.
  unfold Three.applyAxisAngle, Three.applyQuaternion,
    Quaternion.setFromAxisAngle.
  apply vector3_eq; simpl; ring.
Qed.

Lemma applyAxisAngle_scale (v k : Vector3.t) (m theta : R) :
  Three.applyAxisAngle (Vector3.multiplyScalar v m) k theta
  = Vector3.multiplyScalar (Three.applyAxisAngle v k theta) m.
Proof.
  unfold Three.applyAxisAngle, Three.applyQuaternion,
    Quaternion.setFromAxisAngle.
  apply vector3_eq; simpl; ring.
Qed.

Lemma rotationQuaternion_eq (k : Vector3.t) (theta : R) :
  Quaternion.setFromAxisAngle k theta = rotationQuaternion k theta.
Proof. reflexivity. Qed.

(** A quarter turn of an integer vector about a signed coordinate axis. *)
Lemma quarter_turn_embed (a : AxisName) (sigma d : Z) (p : Z3) :
  (sigma = 1 \/ sigma = -1)%Z -> (d = 1 \/ d = -1)%Z ->
  Three.applyAxisAngle (embed p)
    (Vector3.multiplyScalar (unitAxis a) (IZR sigma)) (PI / 2 * IZR d)
  = embed (quarterZ (0 <? sigma * d)%Z a p).
Proof.
  intros Hs Hd.
  rewrite applyAxisAngle_axisAngleRotation
    by (destruct a, Hs; subst sigma; unfold dot; simpl; ring).
  assert (Hsin : sin (PI / 2 * IZR d) = IZR d).
  { destruct Hd; subst d.
    - rewrite Rmult_1_r. apply sin_PI2.
    - replace (PI / 2 * -1) with (- (PI / 2)) by ring.
      rewrite sin_neg, sin_PI2. reflexivity. }
  assert (Hcos : cos (PI / 2 * IZR d) = 0).
  { destruct Hd; subst d.
    - rewrite Rmult_1_r. apply cos_PI2.
    - replace (PI / 2 * -1) with (- (PI / 2)) by ring.
      rewrite cos_neg. apply cos_PI2. }
  unfold axisAngleRotation, dot, cross. rewrite Hsin, Hcos.
  destruct p as [[x y] z].
  destruct a, Hs, Hd; subst sigma d; apply vector3_eq; simpl;
    rewrite ?opp_IZR; ring.
Qed.

Lemma quarter_turn_main (face : Face) (p : Z3) :
  Three.applyAxisAngle (embed p) (ROTATION_AXES face)
    (PI / 2 * ROTATION_DIRECTIONS mainVariant face)
  = embed (quarterZ (mainSense face) (axis (LAYER_INDICES face)) p).
Proof.
  rewrite ROTATION_AXES_unit.
  replace (ROTATION_DIRECTIONS mainVariant face)
    with (IZR (value (LAYER_INDICES face))) by (destruct face; reflexivity).
  rewrite quarter_turn_embed by (destruct face; simpl; lia).
  destruct face; reflexivity.
Qed.

Lemma quarter_turn_overshoot (face : Face) (p : Z3) :
  Three.applyAxisAngle (embed p) (ROTATION_AXES face)
    (PI / 2 * ROTATION_DIRECTIONS overshootVariant face)
  = embed (quarterZ (overshootSense face) (axis (LAYER_INDICES face)) p).
Proof.
  rewrite ROTATION_AXES_unit.
  change (ROTATION_DIRECTIONS overshootVariant face) with (IZR 1).
  rewrite quarter_turn_embed by (destruct face; simpl; lia).
  destruct face; reflexivity.
Qed.

(** ** Arrays *)

Section Marks.

Context {A : Type}.
Variable p : A -> bool.

Lemma layerMarks_cons (start : nat) (a : A) (l : list A) :
  layerMarks p start (a :: l) =
  if p a then Z.of_nat start :: layerMarks p (S start) l
  else layerMarks p (S start) l.
Proof.
  unfold layerMarks. simpl. destruct (p a); simpl.
  - destruct (Z.eqb_spec (Z.of_nat start) (-1)); [lia | reflexivity].
  - reflexivity.
Qed.

Lemma layerMarks_lower (start : nat) (l : list A) (i : Z) :
  In i (layerMarks p start l) -> (Z.of_nat start <= i)%Z.
Proof.
  revert start. induction l as [| a l IH]; intros start H.
  - contradiction.
  - rewrite layerMarks_cons in H. destruct (p a).
    + destruct H as [H | H]; [lia | apply IH in H; lia].
    + apply IH in H. lia.
Qed.

Lemma layerMarks_In (start : nat) (l : list A) (i : Z) :
  In i (layerMarks p start l) <->
  exists j a, i = Z.of_nat (start + j) /\ nth_error l j = Some a
              /\ p a = true.
Proof.
  revert start. induction l as [| a l IH]; intros start.
  - split; [contradiction |]. intros (j & b & _ & Hn & _).
    destruct j; discriminate.
  - rewrite layerMarks_cons. split.
    + intros H.
      assert (Htl : In i (layerMarks p (S start) l) ->
                    exists j b, i = Z.of_nat (start + j)
                                /\ nth_error (a :: l) j = Some b
                                /\ p b = true).
      { intros Hi. apply IH in Hi. destruct Hi as (j & b & Hi & Hn & Hp).
        exists (S j), b. repeat split; [| assumption | assumption].
        rewrite Hi. f_equal. lia. }
      destruct (p a) eqn:Hpa; [| auto].
      destruct H as [H | H]; [| auto].
      exists 0%nat, a. repeat split; [| assumption].
      rewrite <- H. f_equal. lia.
    + intros (j & b & Hi & Hn & Hp). destruct j as [| j].
      * simpl in Hn. injection Hn as ->. rewrite Hp. left.
        rewrite Hi. f_equal. lia.
      * assert (Htl : In i (layerMarks p (S start) l)).
        { apply IH. exists j, b. repeat split; [| assumption | assumption].
          rewrite Hi. f_equal. lia. }
        destruct (p a); [right |]; exact Htl.
Qed.

Lemma includes_spec (l : list Z) (i : Z) :
  Js.includes l i = true <-> In i l.
Proof.
  unfold Js.includes. rewrite existsb_exists. split.
  - intros (j & Hj & He). apply Z.eqb_eq in He. subst j. exact Hj.
  - intros H. exists i. split; [exact H | apply Z.eqb_refl].
Qed.

Lemma layerMarks_includes (l : list A) (j : nat) (a : A) :
  nth_error l j = Some a ->
  Js.includes (layerMarks p 0 l) (Z.of_nat j) = p a.
Proof.
  intros Hn. destruct (p a) eqn:Hp.
  - apply includes_spec. apply layerMarks_In.
    exists j, a. repeat split; assumption.
  - destruct (Js.includes (layerMarks p 0 l) (Z.of_nat j)) eqn:Hi;
      [| reflexivity].
    apply includes_spec in Hi. apply layerMarks_In in Hi.
    destruct Hi as (j' & b & He & Hn' & Hb).
    assert (j' = j) by lia. subst j'. congruence.
Qed.

Lemma layerMarks_length (start : nat) (l : list A) :
  List.length (layerMarks p start l) = List.length (filter p l).
Proof.
  revert start. induction l as [| a l IH]; intros start; [reflexivity |].
  rewrite layerMarks_cons. simpl. destruct (p a); simpl; rewrite IH;
    reflexivity.
Qed.

Lemma layerMarks_NoDup (start : nat) (l : list A) :
  NoDup (layerMarks p start l).
Proof.
  revert start. induction l as [| a l IH]; intros start.
  - constructor.
  - rewrite layerMarks_cons. destruct (p a); [| apply IH].
    constructor; [| apply IH].
    intros H. apply layerMarks_lower in H. lia.
Qed.

Lemma mapi_from_map {B : Type} (h : A -> nat -> B) (h' : A -> B)
    (start : nat) (l : list A) :
  (forall j a, nth_error l j = Some a -> h a (start + j)%nat = h' a) ->
  Js.mapi_from h start l = map h' l.
Proof.
  revert start. induction l as [| a l IH]; intros start H; [reflexivity |].
  simpl. f_equal.
  - rewrite <- (H 0%nat a eq_refl). f_equal. lia.
  - apply IH. intros j b Hn. rewrite <- (H (S j) b Hn). f_equal. lia.
Qed.

End Marks.

Lemma set_nth_length {A : Type} (i : nat) (v : A) (l : list A) :
  List.length (Js.set_nth i v l) = List.length l.
Proof.
  revert i. induction l as [| a l IH]; intros [| i]; simpl; auto.
Qed.

Lemma set_nth_same {A : Type} (i : nat) (v : A) (l : list A) :
  (i < List.length l)%nat -> nth_error (Js.set_nth i v l) i = Some v.
Proof.
  revert i. induction l as [| a l IH]; intros [| i] H; simpl in *;
    try lia; [reflexivity | apply IH; lia].
Qed.

Lemma set_nth_other {A : Type} (i j : nat) (v : A) (l : list A) :
  i <> j -> nth_error (Js.set_nth i v l) j = nth_error l j.
Proof.
  revert i j. induction l as [| a l IH]; intros [| i] [| j] H; simpl;
    try reflexivity; try congruence.
  apply IH. congruence.
Qed.

(** ** The layer selector and the rotation transformer, cubie by cubie *)

Section PerCubie.

Variable V : Variant.

Lemma getCubiesInLayer_marks (l : list CubiePosition) (face : Face) :
  getCubiesInLayer V l face =
  layerMarks (fun c => inLayer V face (indices c)) 0 l.
Proof. reflexivity. Qed.

Lemma getCubiesInLayer_includes (l : list CubiePosition) (face : Face)
    (i : nat) (c : CubiePosition) :
  nth_error l i = Some c ->
  Js.includes (getCubiesInLayer V l face) (Z.of_nat i)
  = inLayer V face (indices c).
Proof.
  intros H. rewrite getCubiesInLayer_marks.
  apply (layerMarks_includes (fun c => inLayer V face (indices c)) l i c H).
Qed.

Lemma getCubiesInLayer_In (l : list CubiePosition) (face : Face) (i : Z) :
  In i (getCubiesInLayer V l face) <->
  exists j c, i = Z.of_nat j /\ nth_error l j = Some c
              /\ inLayer V face (indices c) = true.
Proof. rewrite getCubiesInLayer_marks. apply layerMarks_In. Qed.

Lemma getCubiesInLayer_length (l : list CubiePosition) (face : Face) :
  List.length (getCubiesInLayer V l face)
  = List.length (filter (inLayer V face) (map indices l)).
Proof.
  rewrite getCubiesInLayer_marks, layerMarks_length.
  induction l as [| c l IH]; [reflexivity |].
  simpl. destruct (inLayer V face (indices c)); simpl; rewrite IH;
    reflexivity.
Qed.

Lemma calculateLayerRotation_map (l : list CubiePosition) (face : Face)
    (angle : R) :
  calculateLayerRotation V l face angle =
  map (fun c => if inLayer V face (indices c)
                then rotateCubie V face angle c else c) l.
Proof.
  unfold calculateLayerRotation, Js.mapi.
  apply mapi_from_map. intros j c Hn. simpl.
  rewrite (getCubiesInLayer_includes l face j c Hn).
  destruct (inLayer V face (indices c)); reflexivity.
Qed.

Lemma rotateLayer_map (l : list CubiePosition) (face : Face) :
  rotateLayer V l face = map (commitCubie V face) l.
Proof.
  unfold rotateLayer. rewrite calculateLayerRotation_map, map_map.
  reflexivity.
Qed.

Lemma rotateCubie_pivot_free (face : Face) (angle : R) (c : CubiePosition) :
  position (rotateCubie V face angle c) =
  Three.applyAxisAngle (position c) (ROTATION_AXES face)
    (angle * ROTATION_DIRECTIONS V face).
Proof.
  unfold rotateCubie. simpl. rewrite getFaceCenter_on_axis.
  apply applyAxisAngle_pivot.
Qed.

Lemma rotateCubie_specRotate (face : Face) (angle : R) (c : CubiePosition) :
  rotateCubie V face angle c = specRotate V face angle c.
Proof.
  unfold rotateCubie, specRotate.
  rewrite !getFaceCenter_pivot.
  rewrite !applyAxisAngle_axisAngleRotation by apply ROTATION_AXES_norm.
  reflexivity.
Qed.

End PerCubie.

(** ** Quarter turns on the lattice *)

Lemma Z3_eqb_spec (p q : Z3) : Z3_eqb p q = true <-> p = q.
Proof.
  destruct p as [[a b] c], q as [[a' b'] c']. unfold Z3_eqb.
  rewrite !andb_true_iff, !Z.eqb_eq. split.
  - intros [[-> ->] ->]. reflexivity.
  - intros H. injection H as -> -> ->. auto.
Qed.

Lemma removeOne_perm (p : Z3) (l r : list Z3) :
  removeOne p l = Some r -> Permutation l (p :: r).
Proof.
  revert r. induction l as [| q l IH]; intros r H; [discriminate |].
  simpl in H. destruct (Z3_eqb p q) eqn:E.
  - apply Z3_eqb_spec in E. subst q. injection H as <-. reflexivity.
  - destruct (removeOne p l) as [r' |]; [| discriminate].
    injection H as <-. rewrite (IH r' eq_refl). apply perm_swap.
Qed.

Lemma permb_sound (l1 l2 : list Z3) :
  permb l1 l2 = true -> Permutation l1 l2.
Proof.
  revert l2. induction l1 as [| p l1 IH]; intros l2 H; simpl in H.
  - destruct l2; [constructor | discriminate].
  - destruct (removeOne p l2) as [r |] eqn:E; [| discriminate].
    apply removeOne_perm in E. rewrite E. constructor. apply IH. exact H.
Qed.

Lemma embed_injective (p q : Z3) : embed p = embed q -> p = q.
Proof.
  destruct p as [[a b] c], q as [[a' b'] c']. unfold embed. intros H.
  injection H as Ha Hb Hc.
  apply eq_IZR in Ha, Hb, Hc. subst. reflexivity.
Qed.

Lemma quarterZ_layer (b : bool) (face : Face) (p : Z3) :
  inLayerZ face (quarterZ b (axis (LAYER_INDICES face)) p) = inLayerZ face p.
Proof. destruct p as [[x y] z]. destruct b, face; reflexivity. Qed.

Lemma quarterZ_inCube (b : bool) (a : AxisName) (p : Z3) :
  inCube p -> inCube (quarterZ b a p).
Proof.
  destruct p as [[x y] z]. unfold inCube, unitRange.
  destruct b, a; simpl; lia.
Qed.

Lemma commitZ_inCube (sense : Face -> bool) (face : Face) (p : Z3) :
  inCube p -> inCube (commitZ sense face p).
Proof.
  intros H. unfold commitZ. destruct (inLayerZ face p);
    [apply quarterZ_inCube |]; exact H.
Qed.

Lemma commitZ_four (sense : Face -> bool) (face : Face) (p : Z3) :
  commitZ sense face
    (commitZ sense face (commitZ sense face (commitZ sense face p))) = p.
Proof.
  destruct (inLayerZ face p) eqn:E.
  - assert (Hstep : forall q, inLayerZ face q = true ->
              commitZ sense face q
              = quarterZ (sense face) (axis (LAYER_INDICES face)) q).
    { intros q Hq. unfold commitZ. rewrite Hq. reflexivity. }
    assert (Hstay : forall q, inLayerZ face q = true ->
              inLayerZ face
                (quarterZ (sense face) (axis (LAYER_INDICES face)) q) = true).
    { intros q Hq. rewrite quarterZ_layer. exact Hq. }
    rewrite (Hstep p E).
    rewrite (Hstep _ (Hstay p E)).
    rewrite (Hstep _ (Hstay _ (Hstay p E))).
    rewrite (Hstep _ (Hstay _ (Hstay _ (Hstay p E)))).
    destruct p as [[x y] z].
    destruct (sense face), (axis (LAYER_INDICES face)); simpl;
      rewrite ?Z.opp_involutive; reflexivity.
  - assert (Hskip : commitZ sense face p = p).
    { unfold commitZ. rewrite E. reflexivity. }
    rewrite !Hskip. reflexivity.
Qed.

Lemma nodupb_sound (l : list Z3) : nodupb l = true -> NoDup l.
Proof.
  induction l as [| p l IH]; intros H; [constructor |].
  simpl in H. apply andb_true_iff in H. destruct H as [Hn Hl].
  constructor; [| apply IH; exact Hl].
  intros Hin. apply negb_true_iff in Hn.
  assert (Ht : existsb (Z3_eqb p) l = true).
  { apply existsb_exists. exists p. split; [exact Hin |].
    apply Z3_eqb_spec. reflexivity. }
  congruence.
Qed.

Lemma getTargetPositions_inCube : Forall inCube getTargetPositions.
Proof.
  apply Forall_forall. intros p Hp.
  vm_compute in Hp.
  repeat (destruct Hp as [<- | Hp]; [unfold inCube, unitRange; lia |]).
  contradiction.
Qed.

Lemma commitZ_lattice (sense : Face -> bool) (face : Face) :
  Permutation (map (commitZ sense face) getTargetPositions)
    getTargetPositions.
Proof.
  apply permb_sound. unfold commitZ.
  destruct (sense face); destruct face; vm_compute; reflexivity.
Qed.

Lemma getTargetPositions_NoDup : NoDup getTargetPositions.
Proof. apply nodupb_sound. vm_compute. reflexivity. Qed.

Lemma getTargetPositions_length : List.length getTargetPositions = 26%nat.
Proof. reflexivity. Qed.

Lemma getTargetPositions_spec (p : Z3) :
  In p getTargetPositions <-> inCube p /\ p <> (0, 0, 0)%Z.
Proof.
  split.
  - intros H. split.
    + exact (proj1 (Forall_forall _ _) getTargetPositions_inCube p H).
    + intros ->. vm_compute in H.
      repeat (destruct H as [H | H]; [discriminate H |]). contradiction.
  - intros [Hc Hn]. destruct p as [[a b] c]. destruct Hc as (Ha & Hb & Hc).
    assert (Hb' : existsb (Z3_eqb (a, b, c)) getTargetPositions = true).
    { destruct Ha as [-> | [-> | ->]], Hb as [-> | [-> | ->]],
        Hc as [-> | [-> | ->]]; try (vm_compute; reflexivity).
      contradiction Hn. reflexivity. }
    apply existsb_exists in Hb'. destruct Hb' as (q & Hq & He).
    apply Z3_eqb_spec in He. subst q. exact Hq.
Qed.

(** ** Committed quarter turns *)

Section Commit.

Variable V : Variant.
Variable sense : Face -> bool.
Hypothesis eps_pos : 0 < EPSILON V.
Hypothesis eps_half : EPSILON V <= / 2.
Hypothesis turn_embed : forall face p,
  Three.applyAxisAngle (embed p) (ROTATION_AXES face)
    (PI / 2 * ROTATION_DIRECTIONS V face)
  = embed (quarterZ (sense face) (axis (LAYER_INDICES face)) p).

Lemma commitCubie_indices (face : Face) (c : CubiePosition) (p : Z3) :
  indices c = embed p ->
  indices (commitCubie V face c) = embed (commitZ sense face p).
Proof.
  intros Hc. unfold commitCubie, commitZ.
  rewrite Hc, (inLayer_embed V eps_pos eps_half).
  destruct (inLayerZ face p); simpl.
  - rewrite Hc, turn_embed. apply (snapToGrid_embed V eps_pos eps_half).
  - rewrite Hc. apply (snapToGrid_embed V eps_pos eps_half).
Qed.

Lemma rotateLayer_grid (face : Face) (l : list CubiePosition)
    (zl : list Z3) :
  map indices l = map embed zl ->
  map indices (rotateLayer V l face)
  = map embed (map (commitZ sense face) zl).
Proof.
  rewrite rotateLayer_map. revert zl.
  induction l as [| c l IH]; intros [| p zl] H; try discriminate;
    [reflexivity |].
  cbn [map] in *. injection H as Hc Hl.
  rewrite (commitCubie_indices face c p Hc), (IH zl Hl). reflexivity.
Qed.

Lemma commitTurns_grid (faces : list Face) (l : list CubiePosition)
    (zl : list Z3) :
  map indices l = map embed zl ->
  map indices (commitTurns V faces l)
  = map embed (commitTurnsZ sense faces zl).
Proof.
  revert l zl. induction faces as [| face faces IH]; intros l zl H.
  - exact H.
  - simpl. apply IH. apply rotateLayer_grid. exact H.
Qed.

Lemma commitTurns_length (faces : list Face) (l : list CubiePosition) :
  List.length (commitTurns V faces l) = List.length l.
Proof.
  revert l. induction faces as [| face faces IH]; intros l; [reflexivity |].
  change (commitTurns V (face :: faces) l)
    with (commitTurns V faces (rotateLayer V l face)).
  rewrite IH, rotateLayer_map. apply length_map.
Qed.

Lemma commitCubie_position_snapped (face : Face) (c : CubiePosition)
    (p : Z3) (k : R) :
  snapsPosition V = true ->
  inCube p -> Rabs (k - 1) < / 2 ->
  indices c = embed p ->
  position c = Vector3.multiplyScalar (embed p) k ->
  position (commitCubie V face c) = embed (commitZ sense face p).
Proof.
  intros Hs Hin Hk Hc Hp. unfold commitCubie, commitZ.
  rewrite Hc, (inLayer_embed V eps_pos eps_half).
  destruct (inLayerZ face p); unfold snapCubie; rewrite Hs.
  - rewrite rotateCubie_pivot_free, Hp, applyAxisAngle_scale, turn_embed.
    apply (snapToGrid_scaled V eps_pos eps_half); [| exact Hk].
    apply quarterZ_inCube. exact Hin.
  - rewrite Hp.
    apply (snapToGrid_scaled V eps_pos eps_half); assumption.
Qed.

Lemma multiplyScalar_one (v : Vector3.t) : Vector3.multiplyScalar v 1 = v.
Proof. apply vector3_eq; simpl; ring. Qed.

Lemma rotateLayer_scaledBy_snapped (face : Face) (l : list CubiePosition)
    (k : R) :
  snapsPosition V = true -> Rabs (k - 1) < / 2 ->
  scaledBy k l -> scaledBy 1 (rotateLayer V l face).
Proof.
  intros Hs Hk H. rewrite rotateLayer_map. unfold scaledBy in *.
  apply Forall_map. eapply Forall_impl; [| exact H]. cbv beta.
  intros c (p & Hin & Hc & Hp). exists (commitZ sense face p).
  repeat split.
  - apply commitZ_inCube. exact Hin.
  - apply commitCubie_indices. exact Hc.
  - rewrite multiplyScalar_one.
    apply (commitCubie_position_snapped face c p k); assumption.
Qed.

End Commit.

Lemma commitTurnsZ_perm (sense : Face -> bool) (faces : list Face)
    (zl : list Z3) :
  Permutation zl getTargetPositions ->
  Permutation (commitTurnsZ sense faces zl) getTargetPositions.
Proof.
  revert zl. induction faces as [| face faces IH]; intros zl H; [exact H |].
  simpl. apply IH.
  rewrite (Permutation_map (commitZ sense face) H).
  apply commitZ_lattice.
Qed.

Lemma initial_grid (V : Variant) :
  map indices (initialCubiePositions V) = map embed getTargetPositions.
Proof.
  unfold initialCubiePositions. rewrite map_map.
  apply map_ext. intros [[a b] c]. reflexivity.
Qed.

Lemma initial_scaledBy (V : Variant) :
  scaledBy (CUBE_SIZE V + CUBE_GAP V) (initialCubiePositions V).
Proof.
  unfold scaledBy, initialCubiePositions. apply Forall_map.
  eapply Forall_impl; [| exact getTargetPositions_inCube].
  intros [[a b] c] Hin. exists (a, b, c).
  split; [exact Hin |]. split; reflexivity.
Qed.

Lemma main_eps : 0 < EPSILON mainVariant <= / 2.
Proof. simpl. lra. Qed.

Lemma overshoot_eps : 0 < EPSILON overshootVariant <= / 2.
Proof. simpl. lra. Qed.

Lemma embed_NoDup (zl : list Z3) : NoDup zl -> NoDup (map embed zl).
Proof.
  intros H. apply Finite.Injective_map_NoDup; [| exact H].
  intros p q. apply embed_injective.
Qed.

Lemma canonicalPoint_spec (v : Vector3.t) :
  canonicalPoint v <-> In v (map embed getTargetPositions).
Proof.
  rewrite in_map_iff. split.
  - intros (a & b & c & Ha & Hb & Hc & Hn & Hv).
    exists (a, b, c). split; [symmetry; exact Hv |].
    apply getTargetPositions_spec. repeat split; assumption.
  - intros ([[a b] c] & Hv & Hin). apply getTargetPositions_spec in Hin.
    destruct Hin as [(Ha & Hb & Hc) Hn].
    exists a, b, c. repeat split; try assumption. symmetry. exact Hv.
Qed.

Lemma filter_length_perm {A : Type} (p : A -> bool) (l l' : list A) :
  Permutation l l' ->
  List.length (filter p l) = List.length (filter p l').
Proof.
  induction 1 as [| a l l' _ IH | a b l | l l' l'' _ IH1 _ IH2]; simpl.
  - reflexivity.
  - destruct (p a); simpl; rewrite IH; reflexivity.
  - destruct (p a), (p b); reflexivity.
  - rewrite IH1. exact IH2.
Qed.

Lemma filter_inLayer_embed (V : Variant) (face : Face) (zl : list Z3) :
  0 < EPSILON V <= / 2 ->
  List.length (filter (inLayer V face) (map embed zl))
  = List.length (filter (inLayerZ face) zl).
Proof.
  intros [Hp Hh]. induction zl as [| p zl IH]; [reflexivity |].
  simpl. rewrite (inLayer_embed V Hp Hh).
  destruct (inLayerZ face p); simpl; rewrite IH; reflexivity.
Qed.

Lemma layer_size (V : Variant) (l : list CubiePosition) (face : Face) :
  0 < EPSILON V <= / 2 ->
  Permutation (map indices l) (map embed getTargetPositions) ->
  List.length (getCubiesInLayer V l face) = 9%nat.
Proof.
  intros He Hperm.
  rewrite getCubiesInLayer_length.
  rewrite (filter_length_perm (inLayer V face) _ _ Hperm).
  rewrite (filter_inLayer_embed V face getTargetPositions He).
  destruct face; reflexivity.
Qed.

Lemma integer_grid (l : list CubiePosition) :
  Forall (fun c => integerVector (indices c)) l ->
  exists zl, map indices l = map embed zl.
Proof.
  induction 1 as [| c l [p Hp] _ [zl IH]].
  - exists []. reflexivity.
  - exists (p :: zl). simpl. rewrite Hp, IH. reflexivity.
Qed.

Lemma permutation_invariant (V : Variant) (sense : Face -> bool)
    (faces : list Face) :
  0 < EPSILON V <= / 2 ->
  (forall face p,
      Three.applyAxisAngle (embed p) (ROTATION_AXES face)
        (PI / 2 * ROTATION_DIRECTIONS V face)
      = embed (quarterZ (sense face) (axis (LAYER_INDICES face)) p)) ->
  let l := commitTurns V faces (initialCubiePositions V) in
  List.length l = 26%nat /\
  Permutation (map indices l) (map indices (initialCubiePositions V)) /\
  NoDup (map indices l) /\
  (forall v, In v (map indices l) <-> canonicalPoint v).
Proof.
  intros [Hp Hh] Hturn l.
  assert (Hl : map indices l
               = map embed (commitTurnsZ sense faces getTargetPositions)).
  { apply (commitTurns_grid V sense Hp Hh Hturn). apply initial_grid. }
  assert (Hperm : Permutation (commitTurnsZ sense faces getTargetPositions)
                    getTargetPositions).
  { apply commitTurnsZ_perm. reflexivity. }
  split; [| split; [| split]].
  - unfold l. rewrite (commitTurns_length V).
    unfold initialCubiePositions. rewrite length_map. reflexivity.
  - rewrite Hl, initial_grid. apply Permutation_map. exact Hperm.
  - rewrite Hl. apply embed_NoDup.
    apply (Permutation_NoDup (Permutation_sym Hperm)).
    exact getTargetPositions_NoDup.
  - intros v. rewrite canonicalPoint_spec, Hl. split; intros H.
    + apply (Permutation_in v (Permutation_map embed Hperm)). exact H.
    + apply (Permutation_in v
               (Permutation_sym (Permutation_map embed Hperm))). exact H.
Qed.

(** One committed turn of the RIGHT face from the solved configuration: the
    nine cubies with x = 1 move to the quarter turn about the x axis of their
    grid index, the other seventeen keep theirs. *)
Example right_turn_from_solved :
  map indices
    (rotateLayer mainVariant (initialCubiePositions mainVariant) RIGHT)
  = map (fun p : Z3 =>
           let '(x, y, z) := p in
           embed (if (x =? 1)%Z then (x, - z, y)%Z else p))
        getTargetPositions.
Proof.
  rewrite (rotateLayer_grid mainVariant mainSense (proj1 main_eps)
             (proj2 main_eps) quarter_turn_main RIGHT _ getTargetPositions
             (initial_grid mainVariant)).
  rewrite map_map. apply map_ext. intros [[x y] z].
  unfold commitZ, inLayerZ. simpl.
  destruct (x =? 1)%Z; reflexivity.
Qed.

(** The corner at (1, 1, 1) is cubie 25; the turn of the RIGHT face takes it
    to (1, -1, 1). *)
Example right_turn_moves_corner :
  nth_error
    (map indices
       (rotateLayer mainVariant (initialCubiePositions mainVariant) RIGHT)) 25
  = Some (Vector3.new 1 (-1) 1).
Proof. rewrite right_turn_from_solved. reflexivity. Qed.

(** ** The claims about the grid state *)

(** C1.  Starting from the solved configuration, after every finite
    sequence of committed quarter turns the grid indices of the cubies are a
    permutation of the grid indices of the solved configuration: there are 26
    of them, they are pairwise distinct, and they are exactly the points of
    {-1,0,1}^3 other than the origin.  Both copies of the component. *)
Theorem C1_permutation_invariant :
  bothVariants (fun V => forall faces : list Face,
    let l := commitTurns V faces (initialCubiePositions V) in
    List.length l = 26%nat /\
    Permutation (map indices l) (map indices (initialCubiePositions V)) /\
    NoDup (map indices l) /\
    (forall v, In v (map indices l) <-> canonicalPoint v)).
Proof.
  split; intros faces.
  - exact (permutation_invariant mainVariant mainSense faces main_eps
             quarter_turn_main).
  - exact (permutation_invariant overshootVariant overshootSense faces
             overshoot_eps quarter_turn_overshoot).
Qed.

(** C3.  [calculateLayerRotation] transforms each cubie of the face's
    layer (membership as [getCubiesInLayer] decides it) by translating the
    position by the negative of the pivot, rotating position and grid index
    about the face's axis by the angle, translating the position back and
    left-composing the rotation onto the orientation; every other cubie is
    returned as it is, and the result lists the cubies in the input's
    order.  The pivot lies on the rotation axis, and any pivot on that axis
    gives the same position. *)
Theorem C3_rotation_transformer :
  bothVariants (fun V =>
    forall (cubies : list CubiePosition) (face : Face) (angle : R),
      calculateLayerRotation V cubies face angle
      = map (fun c => if inLayer V face (indices c)
                      then specRotate V face angle c else c) cubies
      /\ (forall i c, nth_error cubies i = Some c ->
            (In (Z.of_nat i) (getCubiesInLayer V cubies face)
             <-> inLayer V face (indices c) = true))
      /\ (forall (c : CubiePosition) (m : R),
            Vector3.add
              (axisAngleRotation (ROTATION_AXES face)
                 (angle * ROTATION_DIRECTIONS V face)
                 (Vector3.sub (position c)
                    (Vector3.multiplyScalar (ROTATION_AXES face) m)))
              (Vector3.multiplyScalar (ROTATION_AXES face) m)
            = position (specRotate V face angle c))).
Proof.
  split; intros cubies face angle; (split; [| split];
    [ rewrite calculateLayerRotation_map; apply map_ext; intros c;
      rewrite rotateCubie_specRotate; reflexivity
    | intros i c Hn; rewrite <- includes_spec;
      rewrite (getCubiesInLayer_includes _ cubies face i c Hn); reflexivity
    | intros c m; rewrite <- rotateCubie_specRotate, rotateCubie_pivot_free;
      rewrite <- applyAxisAngle_axisAngleRotation
        by apply ROTATION_AXES_norm;
      apply applyAxisAngle_pivot ]).
Qed.

(** C4.  On a state whose grid indices are a permutation of the 26
    canonical lattice points, [getCubiesInLayer] returns 9 pairwise distinct
    cubie indices for each face, and the six layer sizes add up to 54. *)
Theorem C4_layer_sizes (l : list CubiePosition) :
  Permutation (map indices l) (map embed getTargetPositions) ->
  bothVariants (fun V =>
    (forall face, List.length (getCubiesInLayer V l face) = 9%nat
                  /\ NoDup (getCubiesInLayer V l face)
                  /\ (forall i, In i (getCubiesInLayer V l face) ->
                        (0 <= i < 26)%Z))
    /\ fold_right Nat.add 0%nat
         (map (fun face => List.length (getCubiesInLayer V l face)) allFaces)
       = 54%nat).
Proof.
  intros Hperm.
  assert (Hlen : List.length l = 26%nat).
  { rewrite <- (length_map indices), (Permutation_length Hperm), length_map.
    reflexivity. }
  assert (Hgen : forall V, 0 < EPSILON V <= / 2 ->
            (forall face, List.length (getCubiesInLayer V l face) = 9%nat
                  /\ NoDup (getCubiesInLayer V l face)
                  /\ (forall i, In i (getCubiesInLayer V l face) ->
                        (0 <= i < 26)%Z))
            /\ fold_right Nat.add 0%nat
                 (map (fun face => List.length (getCubiesInLayer V l face))
                      allFaces) = 54%nat).
  { intros V He. split.
    - intros face. split; [apply layer_size; assumption |].
      split; [rewrite getCubiesInLayer_marks; apply layerMarks_NoDup |].
      intros i Hi. apply getCubiesInLayer_In in Hi.
      destruct Hi as (j & c & -> & Hn & _).
      assert (j < List.length l)%nat by (apply nth_error_Some; congruence).
      lia.
    - simpl. rewrite !(layer_size V l _ He Hperm). reflexivity. }
  split; apply Hgen; [exact main_eps | exact overshoot_eps].
Qed.

Lemma C4_layer_sizes_witness :
  Permutation (map indices (initialCubiePositions mainVariant))
    (map embed getTargetPositions)
  /\ List.length
       (getCubiesInLayer mainVariant (initialCubiePositions mainVariant) RIGHT)
     = 9%nat.
Proof.
  assert (H : Permutation (map indices (initialCubiePositions mainVariant))
                (map embed getTargetPositions)).
  { rewrite initial_grid. reflexivity. }
  split; [exact H |].
  exact (proj1 (proj1 (proj1 (C4_layer_sizes _ H)) RIGHT)).
Defined.

(** C5.  On a state with integer grid indices, turning and committing the
    same face four times in succession returns every cubie's grid index to
    its value before the four turns. *)
Theorem C5_four_turns (face : Face) (l : list CubiePosition) :
  Forall (fun c => integerVector (indices c)) l ->
  bothVariants (fun V =>
    map indices (turnTimes V 4 face l) = map indices l).
Proof.
  intros Hint. destruct (integer_grid l Hint) as [zl Hzl].
  assert (Hgen : forall V sense, 0 < EPSILON V <= / 2 ->
            (forall face p,
                Three.applyAxisAngle (embed p) (ROTATION_AXES face)
                  (PI / 2 * ROTATION_DIRECTIONS V face)
                = embed (quarterZ (sense face) (axis (LAYER_INDICES face)) p)) ->
            map indices (turnTimes V 4 face l) = map indices l).
  { intros V sense [Hp Hh] Hturn. unfold turnTimes. simpl.
    pose proof (rotateLayer_grid V sense Hp Hh Hturn face) as Hstep.
    rewrite (Hstep _ _ (Hstep _ _ (Hstep _ _ (Hstep _ _ Hzl)))).
    rewrite Hzl, !map_map.
    apply map_ext. intros p. rewrite commitZ_four. reflexivity. }
  split.
  - exact (Hgen mainVariant mainSense main_eps quarter_turn_main).
  - exact (Hgen overshootVariant overshootSense overshoot_eps
             quarter_turn_overshoot).
Qed.

Lemma initial_integer (V : Variant) :
  Forall (fun c => integerVector (indices c)) (initialCubiePositions V).
Proof.
  unfold initialCubiePositions. apply Forall_map, Forall_forall.
  intros [[a b] c] _. exists (a, b, c). reflexivity.
Qed.

Lemma C5_four_turns_witness :
  Forall (fun c => integerVector (indices c))
    (initialCubiePositions mainVariant)
  /\ map indices
       (turnTimes mainVariant 4 RIGHT (initialCubiePositions mainVariant))
     = map indices (initialCubiePositions mainVariant).
Proof.
  split; [apply initial_integer |].
  exact (proj1 (C5_four_turns RIGHT _ (initial_integer mainVariant))).
Defined.

Lemma scaledBy_follow (k : R) (l : list CubiePosition) :
  scaledBy k l -> positionsFollowGrid k l.
Proof.
  unfold scaledBy, positionsFollowGrid. intros H.
  eapply Forall_impl; [| exact H]. cbv beta.
  intros c (p & _ & Hc & Hp). rewrite Hc. exact Hp.
Qed.

Lemma commitTurns_scaledBy_snapped (V : Variant) (sense : Face -> bool)
    (face : Face) (faces : list Face) (l : list CubiePosition) (k : R) :
  0 < EPSILON V <= / 2 ->
  (forall face p,
      Three.applyAxisAngle (embed p) (ROTATION_AXES face)
        (PI / 2 * ROTATION_DIRECTIONS V face)
      = embed (quarterZ (sense face) (axis (LAYER_INDICES face)) p)) ->
  snapsPosition V = true -> Rabs (k - 1) < / 2 ->
  scaledBy k l -> scaledBy 1 (commitTurns V (face :: faces) l).
Proof.
  intros [Hp Hh] Hturn Hs Hk H.
  assert (Hone : Rabs (1 - 1) < / 2).
  { replace (1 - 1) with 0 by ring. rewrite Rabs_R0. lra. }
  assert (Hfirst : scaledBy 1 (rotateLayer V l face)).
  { apply (rotateLayer_scaledBy_snapped V sense Hp Hh Hturn face l k);
      assumption. }
  simpl. generalize (rotateLayer V l face) Hfirst. clear H Hfirst l.
  induction faces as [| face' faces IH]; intros l H; [exact H |].
  simpl. apply IH.
  apply (rotateLayer_scaledBy_snapped V sense Hp Hh Hturn face' l 1);
    assumption.
Qed.

(** C7, as the specification states it, fails on the main variant: one
    committed turn of the RIGHT face snaps every position to the integer
    lattice, so the positions no longer carry the factor
    [unitSize + gap]. *)
Lemma C7_counterexample :
  ~ positionsFollowGrid (CUBE_SIZE mainVariant + CUBE_GAP mainVariant)
      (commitTurns mainVariant [RIGHT] (initialCubiePositions mainVariant)).
Proof.
  intros H.
  assert (Hk : Rabs (CUBE_SIZE mainVariant + CUBE_GAP mainVariant - 1) < / 2).
  { simpl. apply Rabs_def1; lra. }
  pose proof (commitTurns_scaledBy_snapped mainVariant mainSense RIGHT []
                (initialCubiePositions mainVariant) _ main_eps
                quarter_turn_main eq_refl Hk (initial_scaledBy mainVariant))
    as Hs.
  pose proof (permutation_invariant mainVariant mainSense [RIGHT] main_eps
                quarter_turn_main) as (_ & _ & _ & Hcanon).
  remember (commitTurns mainVariant [RIGHT]
              (initialCubiePositions mainVariant)) as l eqn:El.
  destruct l as [| c l]; [| clear El].
  { pose proof (commitTurns_length mainVariant [RIGHT]
                  (initialCubiePositions mainVariant)) as Hlen.
    rewrite <- El in Hlen. discriminate Hlen. }
  inversion H as [| ? ? Hc _]; subst.
  inversion Hs as [| ? ? (p & Hin & Hi & Hp) _]; subst.
  assert (Hcp : canonicalPoint (indices c)).
  { apply Hcanon. left. reflexivity. }
  rewrite Hp, Hi in Hc. destruct Hcp as (a & b & d & Ha & Hb & Hd & Hn & Hv).
  rewrite Hi in Hv. apply embed_injective in Hv. subst p.
  unfold embed, Vector3.multiplyScalar in Hc. simpl in Hc.
  injection Hc as Hx Hy Hz.
  assert (Hzero : forall n : Z,
            IZR n * 1 = IZR n * (1 + 1 / 100000) -> n = 0%Z).
  { intros n E. apply eq_IZR. lra. }
  apply Hn. rewrite (Hzero a Hx), (Hzero b Hy), (Hzero d Hz). reflexivity.
Qed.

(** C7, amended.  At startup every cubie's position is its grid index
    scaled by [unitSize + gap], with [gap >= 0].  In the main variant every
    commit snaps all positions, so after one or more committed quarter turns
    every cubie's position equals its grid index itself.  In the overshoot
    variant a commit stores the rotated position as it is, without snapping
    it. *)
Theorem C7_position_follows_grid :
  bothVariants (fun V =>
    0 <= CUBE_GAP V /\
    positionsFollowGrid (CUBE_SIZE V + CUBE_GAP V) (initialCubiePositions V))
  /\ (forall (face : Face) (faces : list Face),
        positionsFollowGrid 1
          (commitTurns mainVariant (face :: faces)
             (initialCubiePositions mainVariant)))
  /\ (forall (l : list CubiePosition) (face : Face),
        map position (rotateLayer overshootVariant l face)
        = map position
            (calculateLayerRotation overshootVariant l face (PI / 2))).
Proof.
  split; [| split].
  - split; (split; [simpl; lra | apply scaledBy_follow, initial_scaledBy]).
  - intros face faces. apply scaledBy_follow.
    apply (commitTurns_scaledBy_snapped mainVariant mainSense face faces _
             (CUBE_SIZE mainVariant + CUBE_GAP mainVariant) main_eps
             quarter_turn_main eq_refl).
    + simpl. apply Rabs_def1; lra.
    + apply initial_scaledBy.
  - intros l face. unfold rotateLayer. rewrite map_map.
    apply map_ext. intros c. reflexivity.
Qed.

(** C8.  [snapToGrid] rounds each component on its own, to 0 when its
    absolute value is below epsilon and to [sign c * round (abs c)]
    otherwise; it is idempotent, and it is the identity on every vector with
    integer components. *)
Theorem C8_snap :
  bothVariants (fun V =>
    (forall v : Vector3.t,
        snapToGrid V v
        = Vector3.new (snapComponent V (Vector3.x v))
            (snapComponent V (Vector3.y v)) (snapComponent V (Vector3.z v)))
    /\ (forall c : R,
          snapComponent V c
          = if Rlt_dec (Rabs c) (EPSILON V) then 0
            else Js.sign c * Js.round (Rabs c))
    /\ (forall v : Vector3.t, snapToGrid V (snapToGrid V v) = snapToGrid V v)
    /\ (forall a b c : Z,
          snapToGrid V (Vector3.new (IZR a) (IZR b) (IZR c))
          = Vector3.new (IZR a) (IZR b) (IZR c))).
Proof.
  assert (Hgen : forall V, 0 < EPSILON V <= / 2 ->
    (forall v : Vector3.t,
        snapToGrid V v
        = Vector3.new (snapComponent V (Vector3.x v))
            (snapComponent V (Vector3.y v)) (snapComponent V (Vector3.z v)))
    /\ (forall c : R,
          snapComponent V c
          = if Rlt_dec (Rabs c) (EPSILON V) then 0
            else Js.sign c * Js.round (Rabs c))
    /\ (forall v : Vector3.t, snapToGrid V (snapToGrid V v) = snapToGrid V v)
    /\ (forall a b c : Z,
          snapToGrid V (Vector3.new (IZR a) (IZR b) (IZR c))
          = Vector3.new (IZR a) (IZR b) (IZR c))).
  { intros V [Hp Hh]. repeat split.
    - intros c. unfold snapComponent, Js.ltb, Js.abs.
      destruct (Rlt_dec (Rabs c) (EPSILON V)); reflexivity.
    - intros v. apply (snapToGrid_idempotent V Hp Hh).
    - intros a b c. apply (snapToGrid_embed V Hp Hh (a, b, c)). }
  split; apply Hgen; [exact main_eps | exact overshoot_eps].
Qed.

Lemma setFromAxisAngle_flip (k : Vector3.t) (theta : R) :
  Quaternion.setFromAxisAngle (Vector3.multiplyScalar k (-1)) (theta * -1)
  = Quaternion.setFromAxisAngle (Vector3.multiplyScalar k 1) (theta * 1).
Proof.
  unfold Quaternion.setFromAxisAngle.
  replace (theta * -1 / 2) with (- (theta * 1 / 2)) by field.
  rewrite sin_neg, cos_neg. simpl. f_equal; ring.
Qed.

Lemma main_rotation_quaternion (face : Face) (angle : R) :
  Quaternion.setFromAxisAngle (ROTATION_AXES face)
    (angle * ROTATION_DIRECTIONS mainVariant face)
  = Quaternion.setFromAxisAngle (unitAxis (axis (LAYER_INDICES face))) angle.
Proof.
  rewrite ROTATION_AXES_unit.
  assert (H1 : forall k, Vector3.multiplyScalar k 1 = k).
  { intros k. apply vector3_eq; simpl; ring. }
  destruct face; simpl ROTATION_DIRECTIONS; simpl LAYER_INDICES; simpl value;
    simpl axis; rewrite ?setFromAxisAngle_flip, H1, Rmult_1_r; reflexivity.
Qed.

(** C10.  In the main variant the stored axis of every face multiplied by
    its direction sign is the positive unit vector of the face's coordinate
    axis, so the rotation applied to a vector, the rotation quaternion and
    the whole transformation of a cubie are the same for a face and for the
    opposite face at the same angle; the two faces differ in the layer they
    select, which lies on the same coordinate axis at the opposite value. *)
Theorem C10_effective_axis :
  (forall face : Face,
      Vector3.multiplyScalar (ROTATION_AXES face)
        (ROTATION_DIRECTIONS mainVariant face)
      = unitAxis (axis (LAYER_INDICES face)))
  /\ (forall (face : Face) (angle : R) (v : Vector3.t),
        Three.applyAxisAngle v (ROTATION_AXES face)
          (angle * ROTATION_DIRECTIONS mainVariant face)
        = Three.applyAxisAngle v (ROTATION_AXES (opposite face))
            (angle * ROTATION_DIRECTIONS mainVariant (opposite face)))
  /\ (forall (face : Face) (angle : R) (c : CubiePosition),
        position (rotateCubie mainVariant face angle c)
        = position (rotateCubie mainVariant (opposite face) angle c)
        /\ indices (rotateCubie mainVariant face angle c)
           = indices (rotateCubie mainVariant (opposite face) angle c)
        /\ quaternion (rotateCubie mainVariant face angle c)
           = quaternion (rotateCubie mainVariant (opposite face) angle c))
  /\ (forall face : Face,
        axis (LAYER_INDICES (opposite face)) = axis (LAYER_INDICES face)
        /\ value (LAYER_INDICES (opposite face))
           = (- value (LAYER_INDICES face))%Z).
Proof.
  assert (Hq : forall face angle,
            Quaternion.setFromAxisAngle (ROTATION_AXES face)
              (angle * ROTATION_DIRECTIONS mainVariant face)
            = Quaternion.setFromAxisAngle (ROTATION_AXES (opposite face))
                (angle * ROTATION_DIRECTIONS mainVariant (opposite face))).
  { intros face angle. rewrite !main_rotation_quaternion.
    destruct face; reflexivity. }
  assert (Hv : forall face angle v,
            Three.applyAxisAngle v (ROTATION_AXES face)
              (angle * ROTATION_DIRECTIONS mainVariant face)
            = Three.applyAxisAngle v (ROTATION_AXES (opposite face))
                (angle * ROTATION_DIRECTIONS mainVariant (opposite face))).
  { intros face angle v. unfold Three.applyAxisAngle. rewrite Hq.
    reflexivity. }
  split; [| split; [| split]].
  - intros face. rewrite ROTATION_AXES_unit.
    destruct face; apply vector3_eq; simpl; ring.
  - exact Hv.
  - intros face angle c. split; [| split].
    + rewrite !rotateCubie_pivot_free. apply Hv.
    + simpl. apply Hv.
    + simpl. rewrite Hq. reflexivity.
  - intros face. destruct face; split; reflexivity.
Qed.

(** ** Publishing transforms *)

Lemma copyTransform_nth (source : list CubiePosition)
    (refs : list (option Object3D)) (index : Z) (i : nat) :
  (0 <= index)%Z ->
  nth_error (copyTransform source refs index) i
  = if (Z.of_nat i =? index)%Z then published source (nth_error refs i) i
    else nth_error refs i.
Proof.
  intros Hnn. unfold copyTransform, published.
  destruct (Z.eqb_spec (Z.of_nat i) index) as [He | Hne].
  - subst index. rewrite Nat2Z.id.
    destruct (nth_error refs i) as [[o |] |] eqn:Er; try reflexivity.
    + destruct (nth_error source i) as [c |]; [| exact Er].
      apply set_nth_same. apply nth_error_Some. congruence.
    + exact Er.
    + exact Er.
  - assert (Hi : Z.to_nat index <> i) by lia.
    destruct (nth_error refs (Z.to_nat index)) as [[o |] |]; try reflexivity.
    destruct (nth_error source (Z.to_nat index)); [| reflexivity].
    apply set_nth_other. exact Hi.
Qed.

Lemma published_twice (source : list CubiePosition)
    (ref : option (option Object3D)) (i : nat) :
  published source (published source ref i) i = published source ref i.
Proof.
  unfold published. destruct ref as [[o |] |]; try reflexivity.
  destruct (nth_error source i); reflexivity.
Qed.

Lemma publish_nth (source : list CubiePosition) (layer : list Z)
    (refs : list (option Object3D)) (i : nat) :
  Forall (fun index => (0 <= index)%Z) layer ->
  nth_error (publish layer source refs) i
  = if Js.includes layer (Z.of_nat i)
    then published source (nth_error refs i) i
    else nth_error refs i.
Proof.
  intros H. revert refs. induction H as [| index layer Hnn _ IH]; intros refs.
  - reflexivity.
  - unfold publish in *. simpl fold_left. rewrite IH.
    rewrite (copyTransform_nth source refs index i Hnn).
    unfold Js.includes. simpl existsb.
    destruct (Z.of_nat i =? index)%Z; simpl.
    + rewrite published_twice.
      destruct (existsb (Z.eqb (Z.of_nat i)) layer); reflexivity.
    + reflexivity.
Qed.

Lemma layer_nonneg (V : Variant) (l : list CubiePosition) (face : Face) :
  Forall (fun index => (0 <= index)%Z) (getCubiesInLayer V l face).
Proof.
  apply Forall_forall. intros i Hi.
  rewrite getCubiesInLayer_marks in Hi. apply layerMarks_lower in Hi. lia.
Qed.

Lemma publish_layer_nth (V : Variant) (cubies source : list CubiePosition)
    (face : Face) (refs : list (option Object3D)) (i : nat) :
  nth_error (publish (getCubiesInLayer V cubies face) source refs) i
  = if Js.includes (getCubiesInLayer V cubies face) (Z.of_nat i)
    then published source (nth_error refs i) i
    else nth_error refs i.
Proof. apply publish_nth, layer_nonneg. Qed.

(** ** The frame driver of the main variant *)

Lemma Main_useFrame_in_progress (w : Main.World) (delta : R) (face : Face) :
  Main.isRotating (Main.rotationState w) = true ->
  Main.currentFace (Main.rotationState w) = Some face ->
  Main.progress (Main.rotationState w) + delta / Main.rotationSpeed < 1 ->
  Main.useFrame w delta =
  let newProgress :=
    Main.progress (Main.rotationState w) + delta / Main.rotationSpeed in
  {| Main.groupRef :=
       spin Main.cubeRotationSpeed (Main.cubeRotationSpeed / 2) delta
         (Main.groupRef w);
     Main.cubieRefs :=
       publish (getCubiesInLayer mainVariant (Main.cubiePositions w) face)
         (calculateLayerRotation mainVariant (Main.cubiePositions w) face
            (PI / 2 * easeInOutCubic (Js.min newProgress 1)))
         (Main.cubieRefs w);
     Main.cubiePositions := Main.cubiePositions w;
     Main.rotationState :=
       {| Main.isRotating := true;
          Main.currentFace := Some face;
          Main.progress := newProgress;
          Main.sequenceIndex := Main.sequenceIndex (Main.rotationState w);
          Main.inSequencePause :=
            Main.inSequencePause (Main.rotationState w);
          Main.inRotationPause :=
            Main.inRotationPause (Main.rotationState w) |};
     Main.timers := Main.timers w |}.
Proof.
  intros Hr Hf Hp. unfold Main.useFrame. rewrite Hr, Hf.
  rewrite (min_below _ Hp), (geb_false _ _ Hp). reflexivity.
Qed.

Lemma Main_useFrame_commit (w : Main.World) (delta : R) (face : Face) :
  Main.isRotating (Main.rotationState w) = true ->
  Main.currentFace (Main.rotationState w) = Some face ->
  1 <= Main.progress (Main.rotationState w) + delta / Main.rotationSpeed ->
  Main.cubiePositions (Main.useFrame w delta)
  = rotateLayer mainVariant (Main.cubiePositions w) face
  /\ Main.isRotating (Main.rotationState (Main.useFrame w delta)) = false
  /\ Main.progress (Main.rotationState (Main.useFrame w delta)) = 0.
Proof.
  intros Hr Hf Hp. unfold Main.useFrame. rewrite Hr, Hf.
  rewrite (min_above _ Hp), geb_true by lra. simpl. auto.
Qed.

Lemma Main_useFrame_idle (w : Main.World) (delta : R) :
  Main.isRotating (Main.rotationState w) = false
  \/ Main.currentFace (Main.rotationState w) = None ->
  Main.useFrame w delta =
  {| Main.groupRef :=
       spin Main.cubeRotationSpeed (Main.cubeRotationSpeed / 2) delta
         (Main.groupRef w);
     Main.cubieRefs := Main.cubieRefs w;
     Main.cubiePositions := Main.cubiePositions w;
     Main.rotationState := Main.rotationState w;
     Main.timers := Main.timers w |}.
Proof.
  intros H. unfold Main.useFrame.
  destruct (Main.isRotating (Main.rotationState w)),
    (Main.currentFace (Main.rotationState w));
    try reflexivity. destruct H; discriminate.
Qed.

Lemma Main_useFrame_spin (w : Main.World) (delta : R) :
  Main.groupRef (Main.useFrame w delta)
  = spin Main.cubeRotationSpeed (Main.cubeRotationSpeed / 2) delta
      (Main.groupRef w).
Proof.
  unfold Main.useFrame.
  destruct (Main.isRotating (Main.rotationState w)),
    (Main.currentFace (Main.rotationState w)); try reflexivity.
  destruct (Js.geb _ 1); reflexivity.
Qed.

(** On the main variant a frame of a turn in progress leaves the grid state
    as it is and publishes, for the cubies of the active layer, the
    transform of the authoritative state rotated about the current face by
    [90 degrees * ease (min progress 1)]; the grid state changes only in the
    frame that completes the turn, where it becomes [rotateLayer]. *)
Lemma Main_frame_keeps_grid_state (w : Main.World) (delta : R) (face : Face) :
  Main.isRotating (Main.rotationState w) = true ->
  Main.currentFace (Main.rotationState w) = Some face ->
  Main.progress (Main.rotationState w) + delta / Main.rotationSpeed < 1 ->
  let newProgress :=
    Main.progress (Main.rotationState w) + delta / Main.rotationSpeed in
  let rotated :=
    calculateLayerRotation mainVariant (Main.cubiePositions w) face
      (PI / 2 * easeInOutCubic (Js.min newProgress 1)) in
  Main.cubiePositions (Main.useFrame w delta) = Main.cubiePositions w
  /\ Main.progress (Main.rotationState (Main.useFrame w delta)) = newProgress
  /\ (forall i,
        nth_error (Main.cubieRefs (Main.useFrame w delta)) i
        = if Js.includes
               (getCubiesInLayer mainVariant (Main.cubiePositions w) face)
               (Z.of_nat i)
          then published rotated (nth_error (Main.cubieRefs w) i) i
          else nth_error (Main.cubieRefs w) i).
Proof.
  intros Hr Hf Hp newProgress rotated.
  rewrite (Main_useFrame_in_progress w delta face Hr Hf Hp).
  cbv zeta. simpl. repeat split.
  intros i. apply publish_layer_nth.
Qed.

Lemma Main_grid_state_changes_only_at_commit (w : Main.World) (delta : R) :
  Main.cubiePositions (Main.useFrame w delta) = Main.cubiePositions w
  \/ exists face,
       Main.isRotating (Main.rotationState w) = true
       /\ Main.currentFace (Main.rotationState w) = Some face
       /\ 1 <= Main.progress (Main.rotationState w)
                + delta / Main.rotationSpeed
       /\ Main.cubiePositions (Main.useFrame w delta)
          = rotateLayer mainVariant (Main.cubiePositions w) face.
Proof.
  destruct (Main.isRotating (Main.rotationState w)) eqn:Hr;
    [| left; rewrite Main_useFrame_idle by (left; exact Hr); reflexivity].
  destruct (Main.currentFace (Main.rotationState w)) as [face |] eqn:Hf;
    [| left; rewrite Main_useFrame_idle by (right; exact Hf); reflexivity].
  destruct (Rlt_le_dec
              (Main.progress (Main.rotationState w)
               + delta / Main.rotationSpeed) 1) as [Hp | Hp].
  - left. rewrite (Main_useFrame_in_progress w delta face Hr Hf Hp).
    reflexivity.
  - right. exists face. repeat split; try assumption.
    apply (Main_useFrame_commit w delta face Hr Hf Hp).
Qed.

(** ** The frame driver of the overshoot variant *)

Lemma Overshoot_useFrame_rotating (w : Overshoot.World) (delta : R)
    (face : Face) :
  Overshoot.isRotating (Overshoot.rotationState w) = true ->
  Overshoot.currentFace (Overshoot.rotationState w) = Some face ->
  Overshoot.useFrame w delta =
  let rs := Overshoot.rotationState w in
  let cubies := Overshoot.cubiePositions w in
  let newProgress := Overshoot.progress rs + delta / (8 / 10) in
  let phase := Overshoot.animationPhase rs cubies face newProgress in
  {| Overshoot.groupRef :=
       spin (1 / 100) (5 / 1000) delta (Overshoot.groupRef w);
     Overshoot.cubieRefs :=
       publish (getCubiesInLayer overshootVariant cubies face)
         (calculateLayerRotation overshootVariant cubies TOP (snd phase))
         (Overshoot.cubieRefs w);
     Overshoot.cubiePositions := snd (fst (fst phase));
     Overshoot.rotationState :=
       if snd (fst phase) then
         Overshoot.updateRotationState (fst (fst (fst phase)))
           {| Overshoot.isRotating' := Some false;
              Overshoot.currentFace' := None;
              Overshoot.progress' := Some 0;
              Overshoot.sequenceIndex' := None;
              Overshoot.inSequencePause' := None;
              Overshoot.inRotationPause' := Some true;
              Overshoot.overshootPhase' := Some false;
              Overshoot.overshootReturn' := Some false |}
       else
         Overshoot.updateRotationState (fst (fst (fst phase)))
           {| Overshoot.isRotating' := None;
              Overshoot.currentFace' := None;
              Overshoot.progress' := Some newProgress;
              Overshoot.sequenceIndex' := None;
              Overshoot.inSequencePause' := None;
              Overshoot.inRotationPause' := None;
              Overshoot.overshootPhase' := None;
              Overshoot.overshootReturn' := None |};
     Overshoot.timers :=
       if snd (fst phase) then
         Overshoot.timers w
         ++ [{| callback := StartNextRotation; delay := 1000 |}]
       else Overshoot.timers w |}.
Proof.
  intros Hr Hf. unfold Overshoot.useFrame. rewrite Hr, Hf. cbv zeta.
  destruct (Overshoot.animationPhase (Overshoot.rotationState w)
              (Overshoot.cubiePositions w) face
              (Overshoot.progress (Overshoot.rotationState w)
               + delta / (8 / 10))) as [[[rs1 cubies1] complete] angle].
  destruct complete; reflexivity.
Qed.

Lemma Overshoot_useFrame_spin (w : Overshoot.World) (delta : R) :
  Overshoot.groupRef (Overshoot.useFrame w delta)
  = spin (1 / 100) (5 / 1000) delta (Overshoot.groupRef w).
Proof.
  destruct (Overshoot.isRotating (Overshoot.rotationState w)) eqn:Hr;
    [destruct (Overshoot.currentFace (Overshoot.rotationState w))
       as [face |] eqn:Hf |].
  - rewrite (Overshoot_useFrame_rotating w delta face Hr Hf). reflexivity.
  - unfold Overshoot.useFrame. rewrite Hr, Hf.
    rewrite andb_false_r. reflexivity.
  - unfold Overshoot.useFrame. rewrite Hr.
    destruct (negb (Overshoot.inRotationPause (Overshoot.rotationState w))
              && negb (Overshoot.inSequencePause (Overshoot.rotationState w))
              && negb false); reflexivity.
Qed.

Lemma animationPhase_initial_eased (rs : Overshoot.RotationState)
    (cubies : list CubiePosition) (face : Face) (newProgress : R) :
  Overshoot.overshootPhase rs = false ->
  Overshoot.overshootReturn rs = false ->
  newProgress < 1 ->
  Overshoot.animationPhase rs cubies face newProgress
  = (rs, cubies, false, PI / 2 * easeInOutCubic newProgress).
Proof.
  intros Ho Hr Hp. unfold Overshoot.animationPhase.
  rewrite Ho, Hr, (geb_false _ _ Hp). reflexivity.
Qed.

Lemma animationPhase_initial_done (rs : Overshoot.RotationState)
    (cubies : list CubiePosition) (face : Face) (newProgress : R) :
  Overshoot.overshootPhase rs = false ->
  Overshoot.overshootReturn rs = false ->
  1 <= newProgress ->
  Overshoot.animationPhase rs cubies face newProgress
  = (Overshoot.updateRotationState rs
       {| Overshoot.isRotating' := None; Overshoot.currentFace' := None;
          Overshoot.progress' := Some 0; Overshoot.sequenceIndex' := None;
          Overshoot.inSequencePause' := None;
          Overshoot.inRotationPause' := None;
          Overshoot.overshootPhase' := Some true;
          Overshoot.overshootReturn' := None |},
     cubies, false, PI / 2).
Proof.
  intros Ho Hr Hp. unfold Overshoot.animationPhase.
  rewrite Ho, Hr, geb_true by lra. reflexivity.
Qed.

Lemma animationPhase_overshoot_done (rs : Overshoot.RotationState)
    (cubies : list CubiePosition) (face : Face) (newProgress : R) :
  Overshoot.overshootPhase rs = true ->
  1 <= newProgress ->
  Overshoot.animationPhase rs cubies face newProgress
  = (Overshoot.updateRotationState rs
       {| Overshoot.isRotating' := None; Overshoot.currentFace' := None;
          Overshoot.progress' := Some 0; Overshoot.sequenceIndex' := None;
          Overshoot.inSequencePause' := None;
          Overshoot.inRotationPause' := None;
          Overshoot.overshootPhase' := Some false;
          Overshoot.overshootReturn' := Some true |},
     cubies, false, PI / 2 + Three.degToRad 3).
Proof.
  intros Ho Hp. unfold Overshoot.animationPhase.
  rewrite Ho, geb_true by lra. reflexivity.
Qed.

Lemma animationPhase_return_done (rs : Overshoot.RotationState)
    (cubies : list CubiePosition) (face : Face) (newProgress : R) :
  Overshoot.overshootPhase rs = false ->
  Overshoot.overshootReturn rs = true ->
  1 <= newProgress ->
  Overshoot.animationPhase rs cubies face newProgress
  = (rs, rotateLayer overshootVariant cubies face, true, PI / 2).
Proof.
  intros Ho Hr Hp. unfold Overshoot.animationPhase.
  rewrite Ho, Hr, geb_true by lra. reflexivity.
Qed.

(** The frame in which the initial phase reaches [progress >= 1] queues
    [progress: 0] and then, in the same frame, [progress: newProgress]: the
    overshoot phase starts with a progress that is already complete. *)
Lemma Overshoot_enter_overshoot (w : Overshoot.World) (delta : R)
    (face : Face) :
  Overshoot.isRotating (Overshoot.rotationState w) = true ->
  Overshoot.currentFace (Overshoot.rotationState w) = Some face ->
  Overshoot.overshootPhase (Overshoot.rotationState w) = false ->
  Overshoot.overshootReturn (Overshoot.rotationState w) = false ->
  1 <= Overshoot.progress (Overshoot.rotationState w) + delta / (8 / 10) ->
  let w' := Overshoot.useFrame w delta in
  Overshoot.rotationState w'
  = Overshoot.updateRotationState (Overshoot.rotationState w)
      {| Overshoot.isRotating' := None; Overshoot.currentFace' := None;
         Overshoot.progress' :=
           Some (Overshoot.progress (Overshoot.rotationState w)
                 + delta / (8 / 10));
         Overshoot.sequenceIndex' := None;
         Overshoot.inSequencePause' := None;
         Overshoot.inRotationPause' := None;
         Overshoot.overshootPhase' := Some true;
         Overshoot.overshootReturn' := None |}
  /\ Overshoot.cubiePositions w' = Overshoot.cubiePositions w.
Proof.
  intros Hr Hf Ho Hret Hp w'. unfold w'.
  rewrite (Overshoot_useFrame_rotating w delta face Hr Hf). cbv zeta.
  rewrite (animationPhase_initial_done _ _ _ _ Ho Hret Hp). simpl.
  split; reflexivity.
Qed.

Lemma Overshoot_leave_overshoot (w : Overshoot.World) (delta : R)
    (face : Face) :
  Overshoot.isRotating (Overshoot.rotationState w) = true ->
  Overshoot.currentFace (Overshoot.rotationState w) = Some face ->
  Overshoot.overshootPhase (Overshoot.rotationState w) = true ->
  1 <= Overshoot.progress (Overshoot.rotationState w) + delta / (8 / 10) ->
  let w' := Overshoot.useFrame w delta in
  Overshoot.rotationState w'
  = Overshoot.updateRotationState (Overshoot.rotationState w)
      {| Overshoot.isRotating' := None; Overshoot.currentFace' := None;
         Overshoot.progress' :=
           Some (Overshoot.progress (Overshoot.rotationState w)
                 + delta / (8 / 10));
         Overshoot.sequenceIndex' := None;
         Overshoot.inSequencePause' := None;
         Overshoot.inRotationPause' := None;
         Overshoot.overshootPhase' := Some false;
         Overshoot.overshootReturn' := Some true |}
  /\ Overshoot.cubiePositions w' = Overshoot.cubiePositions w
  /\ Overshoot.cubieRefs w'
     = publish
         (getCubiesInLayer overshootVariant (Overshoot.cubiePositions w) face)
         (calculateLayerRotation overshootVariant (Overshoot.cubiePositions w)
            TOP (PI / 2 + Three.degToRad 3))
         (Overshoot.cubieRefs w).
Proof.
  intros Hr Hf Ho Hp w'. unfold w'.
  rewrite (Overshoot_useFrame_rotating w delta face Hr Hf). cbv zeta.
  rewrite (animationPhase_overshoot_done _ _ _ _ Ho Hp). simpl.
  repeat split; reflexivity.
Qed.

Lemma Overshoot_commit (w : Overshoot.World) (delta : R) (face : Face) :
  Overshoot.isRotating (Overshoot.rotationState w) = true ->
  Overshoot.currentFace (Overshoot.rotationState w) = Some face ->
  Overshoot.overshootPhase (Overshoot.rotationState w) = false ->
  Overshoot.overshootReturn (Overshoot.rotationState w) = true ->
  1 <= Overshoot.progress (Overshoot.rotationState w) + delta / (8 / 10) ->
  let w' := Overshoot.useFrame w delta in
  Overshoot.isRotating (Overshoot.rotationState w') = false
  /\ Overshoot.inRotationPause (Overshoot.rotationState w') = true
  /\ Overshoot.progress (Overshoot.rotationState w') = 0
  /\ Overshoot.cubiePositions w'
     = rotateLayer overshootVariant (Overshoot.cubiePositions w) face.
Proof.
  intros Hr Hf Ho Hret Hp w'. unfold w'.
  rewrite (Overshoot_useFrame_rotating w delta face Hr Hf). cbv zeta.
  rewrite (animationPhase_return_done _ _ _ _ Ho Hret Hp). simpl.
  repeat split; reflexivity.
Qed.

(** Once the initial phase has reached [progress >= 1], and for frame deltas
    that are not negative, the overshoot phase lasts one frame, shown at
    [90 degrees + 3 degrees], and the return phase is the commit frame: no
    frame shows an eased angle between 90 and 93 degrees. *)
Lemma Overshoot_phases_last_one_frame (w : Overshoot.World)
    (d1 d2 d3 : R) (face : Face) :
  Overshoot.isRotating (Overshoot.rotationState w) = true ->
  Overshoot.currentFace (Overshoot.rotationState w) = Some face ->
  Overshoot.overshootPhase (Overshoot.rotationState w) = false ->
  Overshoot.overshootReturn (Overshoot.rotationState w) = false ->
  1 <= Overshoot.progress (Overshoot.rotationState w) + d1 / (8 / 10) ->
  0 <= d2 -> 0 <= d3 ->
  let w1 := Overshoot.useFrame w d1 in
  let w2 := Overshoot.useFrame w1 d2 in
  let w3 := Overshoot.useFrame w2 d3 in
  Overshoot.overshootPhase (Overshoot.rotationState w1) = true
  /\ 1 <= Overshoot.progress (Overshoot.rotationState w1)
  /\ Overshoot.cubiePositions w1 = Overshoot.cubiePositions w
  /\ Overshoot.overshootReturn (Overshoot.rotationState w2) = true
  /\ Overshoot.cubiePositions w2 = Overshoot.cubiePositions w
  /\ Overshoot.cubieRefs w2
     = publish
         (getCubiesInLayer overshootVariant (Overshoot.cubiePositions w) face)
         (calculateLayerRotation overshootVariant (Overshoot.cubiePositions w)
            TOP (PI / 2 + Three.degToRad 3))
         (Overshoot.cubieRefs w1)
  /\ Overshoot.isRotating (Overshoot.rotationState w3) = false
  /\ Overshoot.cubiePositions w3
     = rotateLayer overshootVariant (Overshoot.cubiePositions w) face.
Proof.
  intros Hr Hf Ho Hret Hp Hd2 Hd3 w1 w2 w3.
  destruct (Overshoot_enter_overshoot w d1 face Hr Hf Ho Hret Hp)
    as [Hrs1 Hc1].
  fold w1 in Hrs1, Hc1.
  assert (Hr1 : Overshoot.isRotating (Overshoot.rotationState w1) = true)
    by (rewrite Hrs1; exact Hr).
  assert (Hf1 : Overshoot.currentFace (Overshoot.rotationState w1)
                = Some face) by (rewrite Hrs1; exact Hf).
  assert (Ho1 : Overshoot.overshootPhase (Overshoot.rotationState w1) = true)
    by (rewrite Hrs1; reflexivity).
  assert (Hp1 : Overshoot.progress (Overshoot.rotationState w1)
                = Overshoot.progress (Overshoot.rotationState w)
                  + d1 / (8 / 10)) by (rewrite Hrs1; reflexivity).
  assert (Hnp2 : 1 <= Overshoot.progress (Overshoot.rotationState w1)
                      + d2 / (8 / 10)).
  { rewrite Hp1. lra. }
  destruct (Overshoot_leave_overshoot w1 d2 face Hr1 Hf1 Ho1 Hnp2)
    as (Hrs2 & Hc2 & Hrefs2).
  fold w2 in Hrs2, Hc2, Hrefs2.
  assert (Hr2 : Overshoot.isRotating (Overshoot.rotationState w2) = true)
    by (rewrite Hrs2; exact Hr1).
  assert (Hf2 : Overshoot.currentFace (Overshoot.rotationState w2)
                = Some face) by (rewrite Hrs2; exact Hf1).
  assert (Hnp3 : 1 <= Overshoot.progress (Overshoot.rotationState w2)
                      + d3 / (8 / 10)).
  { rewrite Hrs2. simpl. lra. }
  destruct (Overshoot_commit w2 d3 face Hr2 Hf2) as (Hi3 & _ & _ & Hc3);
    [rewrite Hrs2; reflexivity | rewrite Hrs2; reflexivity | exact Hnp3 |].
  fold w3 in Hi3, Hc3.
  repeat split.
  - exact Ho1.
  - rewrite Hp1. exact Hp.
  - exact Hc1.
  - rewrite Hrs2. reflexivity.
  - rewrite Hc2. exact Hc1.
  - rewrite Hrefs2, Hc1. reflexivity.
  - exact Hi3.
  - rewrite Hc3, Hc2, Hc1. reflexivity.
Qed.

(** ** The claims about the frame driver *)

Lemma ease_half : easeInOutCubic (1 / 2) = 1 / 2.
Proof.
  unfold easeInOutCubic, Js.pow. rewrite ltb_false by lra. simpl. field.
Qed.

Lemma initial_corner (V : Variant) :
  nth_error (initialCubiePositions V) 17 = Some (cornerCubie V).
Proof. reflexivity. Qed.

Lemma corner_in_right (V : Variant) :
  0 < EPSILON V <= / 2 ->
  inLayer V RIGHT (indices (cornerCubie V)) = true
  /\ inLayer V TOP (indices (cornerCubie V)) = false.
Proof.
  intros [Hp Hh].
  change (indices (cornerCubie V)) with (embed (1, -1, -1)%Z).
  rewrite !(inLayer_embed V Hp Hh). split; reflexivity.
Qed.

Lemma partial_turn_moves_corner (angle : R) :
  0 < angle < 2 * PI ->
  transformOf (rotateCubie overshootVariant RIGHT angle
                 (cornerCubie overshootVariant))
  <> transformOf (cornerCubie overshootVariant).
Proof.
  intros Ha H.
  apply (f_equal (fun o => Quaternion.x (refQuaternion o))) in H.
  unfold rotateCubie in H. rewrite ROTATION_AXES_unit in H. simpl in H.
  assert (Hs : 0 < sin (angle * 1 / 2)).
  { apply sin_gt_0; lra. }
  lra.
Qed.

(** C2, the overshoot variant at the failing input.  The turn of the RIGHT
    face is at progress 0 and the frame delta is 0.4, so the new progress is
    1/2 and the animated angle is 45 degrees.  Cubie 17, at grid index
    (1, -1, -1), belongs to the RIGHT layer.  The frame leaves the grid state
    as it is, but it publishes for cubie 17 its own unrotated transform: the
    frame rotates the TOP layer, to which the cubie does not belong, where
    the claim has the transform of the rotation about the current face,
    which is a different one. *)
Theorem C2_overshoot_frame_rotates_top :
  let w := overshootExample 0 in
  let w' := Overshoot.useFrame w (4 / 10) in
  let angle := PI / 2 * easeInOutCubic (Js.min (0 + 4 / 10 / (8 / 10)) 1) in
  angle = PI / 4
  /\ nth_error (Overshoot.cubiePositions w) 17
     = Some (cornerCubie overshootVariant)
  /\ In 17%Z
       (getCubiesInLayer overshootVariant (Overshoot.cubiePositions w) RIGHT)
  /\ Overshoot.cubiePositions w' = Overshoot.cubiePositions w
  /\ nth_error (Overshoot.cubieRefs w') 17
     = Some (Some (transformOf (cornerCubie overshootVariant)))
  /\ nth_error
       (calculateLayerRotation overshootVariant (Overshoot.cubiePositions w)
          RIGHT angle) 17
     = Some (rotateCubie overshootVariant RIGHT angle
               (cornerCubie overshootVariant))
  /\ transformOf (rotateCubie overshootVariant RIGHT angle
                    (cornerCubie overshootVariant))
     <> transformOf (cornerCubie overshootVariant).
Proof.
  intros w w' angle.
  destruct (corner_in_right overshootVariant overshoot_eps) as [Hright Htop].
  assert (Hnp : 0 + 4 / 10 / (8 / 10) = 1 / 2) by field.
  assert (Hangle : angle = PI / 4).
  { unfold angle. rewrite Hnp, min_below by lra. rewrite ease_half. field. }
  assert (H17 : nth_error (Overshoot.cubiePositions w) 17
                = Some (cornerCubie overshootVariant)).
  { apply initial_corner. }
  assert (Hin : Js.includes
                  (getCubiesInLayer overshootVariant
                     (Overshoot.cubiePositions w) RIGHT) (Z.of_nat 17)
                = true).
  { rewrite (getCubiesInLayer_includes overshootVariant _ RIGHT 17 _ H17).
    exact Hright. }
  unfold w' in *.
  rewrite (Overshoot_useFrame_rotating w (4 / 10) RIGHT eq_refl eq_refl).
  cbv zeta.
  rewrite (animationPhase_initial_eased (Overshoot.rotationState w)
             (Overshoot.cubiePositions w) RIGHT
             (Overshoot.progress (Overshoot.rotationState w)
              + 4 / 10 / (8 / 10)) eq_refl eq_refl)
    by (simpl; lra).
  cbn [fst snd Overshoot.cubiePositions Overshoot.cubieRefs].
  split; [exact Hangle |].
  split; [exact H17 |].
  split; [apply includes_spec; exact Hin |].
  split; [reflexivity |].
  split; [| split].
  - fold (Overshoot.cubiePositions w). rewrite publish_layer_nth, Hin.
    unfold published.
    rewrite calculateLayerRotation_map, nth_error_map, H17. cbn [option_map].
    rewrite Htop.
    change (Overshoot.cubieRefs w)
      with (map (fun c => Some (transformOf c)) (Overshoot.cubiePositions w)).
    rewrite nth_error_map, H17. reflexivity.
  - rewrite calculateLayerRotation_map, nth_error_map, H17. cbn [option_map].
    rewrite Hright. reflexivity.
  - apply partial_turn_moves_corner. rewrite Hangle.
    pose proof PI_RGT_0. lra.
Qed.

(** C6, the overshoot variant at the failing input.  The turn of the RIGHT
    face is in its initial phase at progress 0.9; the frame deltas are 0.1,
    0.01 and 0.01.  The first frame reaches progress 1.025 and enters the
    overshoot phase without committing, but the stored progress is 1.025,
    not 0: the update [progress: newProgress] queued at the end of the frame
    overrides the reset.  The second frame therefore already ends the
    overshoot phase, shown at exactly 90 + 3 degrees, and the third frame
    ends the return phase and commits: neither phase shows an eased
    angle. *)
Theorem C6_overshoot_phases_do_not_ease :
  let w0 := overshootExample (9 / 10) in
  let w1 := Overshoot.useFrame w0 (1 / 10) in
  let w2 := Overshoot.useFrame w1 (1 / 100) in
  let w3 := Overshoot.useFrame w2 (1 / 100) in
  Overshoot.overshootPhase (Overshoot.rotationState w1) = true
  /\ Overshoot.progress (Overshoot.rotationState w1) = 41 / 40
  /\ Overshoot.cubiePositions w1 = Overshoot.cubiePositions w0
  /\ Overshoot.overshootReturn (Overshoot.rotationState w2) = true
  /\ Overshoot.cubiePositions w2 = Overshoot.cubiePositions w0
  /\ Overshoot.cubieRefs w2
     = publish
         (getCubiesInLayer overshootVariant (Overshoot.cubiePositions w0)
            RIGHT)
         (calculateLayerRotation overshootVariant
            (Overshoot.cubiePositions w0) TOP (PI / 2 + Three.degToRad 3))
         (Overshoot.cubieRefs w1)
  /\ Overshoot.isRotating (Overshoot.rotationState w3) = false
  /\ Overshoot.cubiePositions w3
     = rotateLayer overshootVariant (Overshoot.cubiePositions w0) RIGHT.
Proof.
  intros w0 w1 w2 w3.
  assert (Hnp : 1 <= Overshoot.progress (Overshoot.rotationState w0)
                     + 1 / 10 / (8 / 10)) by (simpl; lra).
  assert (Hd : 0 <= 1 / 100) by lra.
  destruct (Overshoot_phases_last_one_frame w0 (1 / 10) (1 / 100) (1 / 100)
              RIGHT eq_refl eq_refl eq_refl eq_refl Hnp Hd Hd)
    as (H1 & _ & H2 & H3 & H4 & H5 & H6 & H7).
  destruct (Overshoot_enter_overshoot w0 (1 / 10) RIGHT eq_refl eq_refl
              eq_refl eq_refl Hnp) as [Hrs _].
  repeat split; try assumption.
  unfold w1. rewrite Hrs. simpl. field.
Qed.

(** C9, as the specification states it, fails: the main variant, in the
    middle of a turn at progress 1/2, is given the frame delta -0.17.  The
    stored progress falls to 3/10 and the idle-spin angles fall below their
    value before the frame, where a frame of delta 0 keeps both. *)
Lemma C9_counterexample :
  Main.progress (Main.rotationState (Main.useFrame mainExample (-17 / 100)))
  = 3 / 10
  /\ Main.progress (Main.rotationState (Main.useFrame mainExample 0)) = 1 / 2
  /\ Main.groupRef (Main.useFrame mainExample (-17 / 100))
     = Some {| rotationX := 0 + -17 / 100 * (5 / 100 / 2);
               rotationY := 0 + -17 / 100 * (5 / 100) |}
  /\ Main.groupRef (Main.useFrame mainExample 0)
     = Some {| rotationX := 0 + 0 * (5 / 100 / 2);
               rotationY := 0 + 0 * (5 / 100) |}
  /\ Main.useFrame mainExample (-17 / 100) <> Main.useFrame mainExample 0.
Proof.
  assert (Hneg : Main.progress (Main.rotationState mainExample)
                 + -17 / 100 / Main.rotationSpeed < 1).
  { unfold Main.rotationSpeed. simpl. lra. }
  assert (Hzero : Main.progress (Main.rotationState mainExample)
                  + 0 / Main.rotationSpeed < 1).
  { unfold Main.rotationSpeed. simpl. lra. }
  assert (H1 : Main.progress
                 (Main.rotationState (Main.useFrame mainExample (-17 / 100)))
               = 3 / 10).
  { rewrite (Main_useFrame_in_progress mainExample _ RIGHT eq_refl eq_refl
               Hneg).
    unfold Main.rotationSpeed. simpl. field. }
  assert (H2 : Main.progress
                 (Main.rotationState (Main.useFrame mainExample 0)) = 1 / 2).
  { rewrite (Main_useFrame_in_progress mainExample _ RIGHT eq_refl eq_refl
               Hzero).
    unfold Main.rotationSpeed. simpl. field. }
  split; [exact H1 |]. split; [exact H2 |].
  split; [rewrite Main_useFrame_spin; reflexivity |].
  split; [rewrite Main_useFrame_spin; reflexivity |].
  intros E. rewrite E in H1. rewrite H1 in H2. lra.
Qed.

(** C9, amended.  The frame driver does not clamp the frame delta.  Every
    frame, of either copy and in every state, adds [delta * speed] to the two
    idle-spin angles, for every delta, negative ones included; and a frame
    of a turn that stays below progress 1 stores
    [progress + delta / rotationDuration].  So the idle-spin angles and the
    progress do not decrease when the delta is not negative, and they do not
    increase when it is not positive: a negative delta is applied as it
    is. *)
Theorem C9_delta_is_not_clamped :
  (forall (w : Main.World) (delta : R) (g : Group),
      Main.groupRef w = Some g ->
      exists g',
        Main.groupRef (Main.useFrame w delta) = Some g'
        /\ rotationY g' = rotationY g + delta * Main.cubeRotationSpeed
        /\ rotationX g' = rotationX g + delta * (Main.cubeRotationSpeed / 2)
        /\ (0 <= delta ->
            rotationY g <= rotationY g' /\ rotationX g <= rotationX g')
        /\ (delta <= 0 ->
            rotationY g' <= rotationY g /\ rotationX g' <= rotationX g))
  /\ (forall (w : Overshoot.World) (delta : R) (g : Group),
        Overshoot.groupRef w = Some g ->
        exists g',
          Overshoot.groupRef (Overshoot.useFrame w delta) = Some g'
          /\ rotationY g' = rotationY g + delta * (1 / 100)
          /\ rotationX g' = rotationX g + delta * (5 / 1000)
          /\ (0 <= delta ->
              rotationY g <= rotationY g' /\ rotationX g <= rotationX g')
          /\ (delta <= 0 ->
              rotationY g' <= rotationY g /\ rotationX g' <= rotationX g))
  /\ (forall (w : Main.World) (delta : R) (face : Face),
        Main.isRotating (Main.rotationState w) = true ->
        Main.currentFace (Main.rotationState w) = Some face ->
        Main.progress (Main.rotationState w) + delta / Main.rotationSpeed
        < 1 ->
        let w' := Main.useFrame w delta in
        Main.progress (Main.rotationState w')
        = Main.progress (Main.rotationState w) + delta / Main.rotationSpeed
        /\ (0 <= delta ->
            Main.progress (Main.rotationState w)
            <= Main.progress (Main.rotationState w'))
        /\ (delta <= 0 ->
            Main.progress (Main.rotationState w')
            <= Main.progress (Main.rotationState w)))
  /\ (forall (w : Overshoot.World) (delta : R) (face : Face),
        Overshoot.isRotating (Overshoot.rotationState w) = true ->
        Overshoot.currentFace (Overshoot.rotationState w) = Some face ->
        Overshoot.progress (Overshoot.rotationState w) + delta / (8 / 10) < 1 ->
        let w' := Overshoot.useFrame w delta in
        Overshoot.progress (Overshoot.rotationState w')
        = Overshoot.progress (Overshoot.rotationState w) + delta / (8 / 10)
        /\ (0 <= delta ->
            Overshoot.progress (Overshoot.rotationState w)
            <= Overshoot.progress (Overshoot.rotationState w'))
        /\ (delta <= 0 ->
            Overshoot.progress (Overshoot.rotationState w')
            <= Overshoot.progress (Overshoot.rotationState w))).
Proof.
  split; [| split; [| split]].
  - intros w delta [rx ry] Hg.
    rewrite Main_useFrame_spin, Hg. simpl.
    eexists. split; [reflexivity |]. simpl.
    unfold Main.cubeRotationSpeed.
    split; [reflexivity |]. split; [reflexivity |].
    split; intros Hd; split; lra.
  - intros w delta [rx ry] Hg.
    rewrite Overshoot_useFrame_spin, Hg. simpl.
    eexists. split; [reflexivity |]. simpl.
    split; [reflexivity |]. split; [reflexivity |].
    split; intros Hd; split; lra.
  - intros w delta face Hr Hf Hp w'.
    assert (Hprog : Main.progress (Main.rotationState w')
                    = Main.progress (Main.rotationState w)
                      + delta / Main.rotationSpeed).
    { unfold w'. rewrite (Main_useFrame_in_progress w delta face Hr Hf Hp).
      reflexivity. }
    split; [exact Hprog |].
    rewrite Hprog. unfold Main.rotationSpeed. split; intros Hd; lra.
  - intros w delta face Hr Hf Hp w'.
    assert (Hprog : Overshoot.progress (Overshoot.rotationState w')
                    = Overshoot.progress (Overshoot.rotationState w)
                      + delta / (8 / 10)).
    { unfold w'. rewrite (Overshoot_useFrame_rotating w delta face Hr Hf).
      cbv zeta. unfold Overshoot.animationPhase.
      rewrite (geb_false _ _ Hp).
      destruct (Overshoot.overshootPhase (Overshoot.rotationState w));
        [| destruct (Overshoot.overshootReturn (Overshoot.rotationState w))];
        reflexivity. }
    split; [exact Hprog |].
    rewrite Hprog. split; intros Hd; lra.
Qed.

(** The theorem at a negative delta: the main variant in the middle of a
    turn at progress 1/2 and the overshoot variant at progress 1/2, both
    given the frame delta -0.17. *)
Lemma C9_delta_is_not_clamped_witness :
  (Main.groupRef mainExample = Some {| rotationX := 0; rotationY := 0 |}
   /\ -17 / 100 <= 0
   /\ exists g',
        Main.groupRef (Main.useFrame mainExample (-17 / 100)) = Some g'
        /\ rotationY g' = 0 + -17 / 100 * Main.cubeRotationSpeed
        /\ rotationY g' <= 0 /\ rotationX g' <= 0)
  /\ (Overshoot.groupRef (overshootExample (1 / 2))
      = Some {| rotationX := 0; rotationY := 0 |}
      /\ exists g',
           Overshoot.groupRef
             (Overshoot.useFrame (overshootExample (1 / 2)) (-17 / 100))
           = Some g'
           /\ rotationY g' <= 0 /\ rotationX g' <= 0)
  /\ (Main.isRotating (Main.rotationState mainExample) = true
      /\ Main.currentFace (Main.rotationState mainExample) = Some RIGHT
      /\ Main.progress (Main.rotationState mainExample)
         + -17 / 100 / Main.rotationSpeed < 1
      /\ Main.progress
           (Main.rotationState (Main.useFrame mainExample (-17 / 100)))
         <= Main.progress (Main.rotationState mainExample))
  /\ (Overshoot.progress (Overshoot.rotationState (overshootExample (1 / 2)))
      + -17 / 100 / (8 / 10) < 1
      /\ Overshoot.progress
           (Overshoot.rotationState
              (Overshoot.useFrame (overshootExample (1 / 2)) (-17 / 100)))
         <= Overshoot.progress
              (Overshoot.rotationState (overshootExample (1 / 2)))).
Proof.
  assert (Hneg : -17 / 100 <= 0) by lra.
  assert (Hm : Main.progress (Main.rotationState mainExample)
               + -17 / 100 / Main.rotationSpeed < 1).
  { unfold Main.rotationSpeed. simpl. lra. }
  assert (Ho : Overshoot.progress
                 (Overshoot.rotationState (overshootExample (1 / 2)))
               + -17 / 100 / (8 / 10) < 1).
  { simpl. lra. }
  destruct C9_delta_is_not_clamped as (Hms & Hos & Hmp & Hop).
  split; [| split; [| split]].
  - split; [reflexivity |]. split; [exact Hneg |].
    destruct (Hms mainExample (-17 / 100) _ eq_refl)
      as (g' & Hg & Hy & _ & _ & Hle).
    exists g'. split; [exact Hg |]. split; [exact Hy |].
    exact (Hle Hneg).
  - split; [reflexivity |].
    destruct (Hos (overshootExample (1 / 2)) (-17 / 100) _ eq_refl)
      as (g' & Hg & _ & _ & _ & Hle).
    exists g'. split; [exact Hg |]. exact (Hle Hneg).
  - split; [reflexivity |]. split; [reflexivity |]. split; [exact Hm |].
    exact (proj2 (proj2 (Hmp mainExample (-17 / 100) RIGHT eq_refl eq_refl
                           Hm)) Hneg).
  - split; [exact Ho |].
    exact (proj2 (proj2 (Hop (overshootExample (1 / 2)) (-17 / 100) RIGHT
                           eq_refl eq_refl Ho)) Hneg).
Defined.

(* ================================================================== *)
(** * Further properties of the component *)

(** ** The easing curve *)

Lemma cube_le (a b : R) : a <= b -> a * a * a <= b * b * b.
Proof.
  intros H.
  assert (Hq : 0 <= a * a + a * b + b * b).
  { replace (a * a + a * b + b * b)
      with ((a + b / 2) * (a + b / 2) + 3 / 4 * (b * b)) by field.
    pose proof (Rle_0_sqr (a + b / 2)) as H1.
    pose proof (Rle_0_sqr b) as H2. unfold Rsqr in *. lra. }
  replace (b * b * b) with (a * a * a + (b - a) * (a * a + a * b + b * b))
    by ring.
  assert (0 <= (b - a) * (a * a + a * b + b * b))
    by (apply Rmult_le_pos; lra).
  lra.
Qed.

Lemma ease_low (t : R) : t < 1 / 2 -> easeInOutCubic t = 4 * t * t * t.
Proof.
  intros H. unfold easeInOutCubic. rewrite ltb_true by exact H. reflexivity.
Qed.

Lemma ease_high (t : R) :
  1 / 2 <= t ->
  easeInOutCubic t = 1 - (2 - 2 * t) * (2 - 2 * t) * (2 - 2 * t) / 2.
Proof.
  intros H. unfold easeInOutCubic, Js.pow. rewrite ltb_false by exact H.
  simpl. field.
Qed.

Lemma ease_nondecreasing (a b : R) :
  a <= b -> easeInOutCubic a <= easeInOutCubic b.
Proof.
  intros H.
  destruct (Rlt_le_dec a (1 / 2)) as [Ha | Ha];
    destruct (Rlt_le_dec b (1 / 2)) as [Hb | Hb].
  - rewrite !ease_low by assumption.
    pose proof (cube_le a b H). lra.
  - rewrite ease_low, ease_high by assumption.
    assert (H1 : a * a * a <= 1 / 2 * (1 / 2) * (1 / 2))
      by (apply cube_le; lra).
    assert (H2 : (2 - 2 * b) * (2 - 2 * b) * (2 - 2 * b) <= 1 * 1 * 1)
      by (apply cube_le; lra).
    lra.
  - lra.
  - rewrite !ease_high by assumption.
    assert (H1 : (2 - 2 * b) * (2 - 2 * b) * (2 - 2 * b)
                 <= (2 - 2 * a) * (2 - 2 * a) * (2 - 2 * a))
      by (apply cube_le; lra).
    lra.
Qed.

Lemma ease_zero : easeInOutCubic 0 = 0.
Proof. rewrite ease_low by lra. ring. Qed.

Lemma ease_one : easeInOutCubic 1 = 1.
Proof. rewrite ease_high by lra. field. Qed.

(** X1.  The easing curve never decreases, on the whole real line: a later
    progress never gives a smaller eased value, and the two branches meet
    at the value 1/2. *)
Theorem ease_monotone (a b : R) :
  a <= b ->
  easeInOutCubic a <= easeInOutCubic b
  /\ easeInOutCubic (1 / 2) = 1 / 2
  /\ (a < 1 / 2 -> easeInOutCubic a <= 1 / 2)
  /\ (1 / 2 <= b -> 1 / 2 <= easeInOutCubic b).
Proof.
  intros H.
  assert (Hhalf : easeInOutCubic (1 / 2) = 1 / 2).
  { rewrite ease_high by lra. field. }
  split; [apply ease_nondecreasing; exact H |].
  split; [exact Hhalf |].
  split; intros Hc.
  - assert (Hle : a <= 1 / 2) by lra.
    pose proof (ease_nondecreasing a (1 / 2) Hle) as Hm.
    rewrite Hhalf in Hm. exact Hm.
  - pose proof (ease_nondecreasing (1 / 2) b Hc) as Hm.
    rewrite Hhalf in Hm. exact Hm.
Qed.

Lemma ease_monotone_witness :
  1 / 4 <= 3 / 4 /\ easeInOutCubic (1 / 4) <= easeInOutCubic (3 / 4).
Proof.
  assert (H : 1 / 4 <= 3 / 4) by lra.
  split; [exact H | exact (proj1 (ease_monotone _ _ H))].
Defined.

(** X2.  The easing curve starts at 0, ends at 1 and stays between them on
    [0, 1]. *)
Theorem ease_range (t : R) :
  easeInOutCubic 0 = 0 /\ easeInOutCubic 1 = 1
  /\ (0 <= t <= 1 -> 0 <= easeInOutCubic t <= 1).
Proof.
  split; [exact ease_zero |]. split; [exact ease_one |].
  intros [H0 H1].
  pose proof (ease_nondecreasing 0 t H0) as Hlo.
  pose proof (ease_nondecreasing t 1 H1) as Hhi.
  rewrite ease_zero in Hlo. rewrite ease_one in Hhi. split; assumption.
Qed.

Lemma ease_range_witness :
  0 <= 1 / 2 <= 1 /\ 0 <= easeInOutCubic (1 / 2) <= 1.
Proof.
  assert (H : 0 <= 1 / 2 <= 1) by lra.
  split; [exact H |].
  exact (proj2 (proj2 (ease_range (1 / 2))) H).
Defined.

(** ** Partial rotations *)

Lemma quaternion_eq (a b : Quaternion.t) :
  Quaternion.x a = Quaternion.x b -> Quaternion.y a = Quaternion.y b ->
  Quaternion.z a = Quaternion.z b -> Quaternion.w a = Quaternion.w b ->
  a = b.
Proof. destruct a, b. simpl. intros -> -> -> ->. reflexivity. Qed.

Lemma cubie_eq (a b : CubiePosition) :
  position a = position b -> indices a = indices b ->
  quaternion a = quaternion b -> type a = type b -> a = b.
Proof. destruct a, b. simpl. intros -> -> -> ->. reflexivity. Qed.

Lemma face_rotation_component (face : Face) (v : Vector3.t) (theta : R) :
  Vector3.getComponent
    (Three.applyAxisAngle v (ROTATION_AXES face) theta)
    (AXIS_TO_INDEX (axis (LAYER_INDICES face)))
  = Vector3.getComponent v (AXIS_TO_INDEX (axis (LAYER_INDICES face))).
Proof.
  rewrite applyAxisAngle_axisAngleRotation by apply ROTATION_AXES_norm.
  rewrite ROTATION_AXES_unit.
  unfold axisAngleRotation, cross, dot.
  destruct v as [x y z]. destruct face; simpl; ring.
Qed.

Lemma rotateCubie_inLayer (V : Variant) (face : Face) (angle : R)
    (c : CubiePosition) :
  inLayer V face (indices (rotateCubie V face angle c))
  = inLayer V face (indices c).
Proof.
  unfold inLayer, rotateCubie. cbn [indices].
  rewrite face_rotation_component. reflexivity.
Qed.

Lemma setFromAxisAngle_zero (k : Vector3.t) :
  Quaternion.setFromAxisAngle k 0 = Quaternion.new.
Proof.
  unfold Quaternion.setFromAxisAngle, Quaternion.new.
  replace (0 / 2) with 0 by field. rewrite sin_0, cos_0.
  apply quaternion_eq; simpl; ring.
Qed.

Lemma rotateCubie_zero (V : Variant) (face : Face) (c : CubiePosition) :
  rotateCubie V face 0 c = c.
Proof.
  assert (Hid : forall v k, Three.applyAxisAngle v k 0 = v).
  { intros v k. unfold Three.applyAxisAngle.
    rewrite setFromAxisAngle_zero. unfold Three.applyQuaternion.
    apply vector3_eq; simpl; ring. }
  apply cubie_eq.
  - rewrite rotateCubie_pivot_free, Rmult_0_l. apply Hid.
  - unfold rotateCubie. cbn [indices]. rewrite Rmult_0_l. apply Hid.
  - unfold rotateCubie, Quaternion.premultiply. cbn [quaternion].
    rewrite Rmult_0_l, setFromAxisAngle_zero.
    unfold Quaternion.multiplyQuaternions. apply quaternion_eq; simpl; ring.
  - reflexivity.
Qed.

Lemma calculateLayerRotation_zero (V : Variant) (l : list CubiePosition)
    (face : Face) :
  calculateLayerRotation V l face 0 = l.
Proof.
  rewrite calculateLayerRotation_map. rewrite <- (map_id l) at 2.
  apply map_ext. intros c.
  destruct (inLayer V face (indices c)); [apply rotateCubie_zero |];
    reflexivity.
Qed.

(** X4.  A partial rotation by any angle does not move a cubie into or out
    of the layer of the turning face: on every state, every cubie keeps the
    coordinate of its grid index along the axis of the face and its type,
    the list keeps its length and order, and [getCubiesInLayer] returns for
    that face the list that it returned before the rotation. *)
Theorem partial_rotation_keeps_layer (V : Variant) (l : list CubiePosition)
    (face : Face) (angle : R) :
  let k := AXIS_TO_INDEX (axis (LAYER_INDICES face)) in
  getCubiesInLayer V (calculateLayerRotation V l face angle) face
  = getCubiesInLayer V l face
  /\ map (fun c => (Vector3.getComponent (indices c) k, type c))
       (calculateLayerRotation V l face angle)
     = map (fun c => (Vector3.getComponent (indices c) k, type c)) l.
Proof.
  intros k. split.
  - rewrite !getCubiesInLayer_marks, calculateLayerRotation_map.
    unfold layerMarks. f_equal. unfold Js.mapi.
    generalize 0%nat. induction l as [| c l IH]; intros n; [reflexivity |].
    simpl. f_equal; [| apply IH].
    destruct (inLayer V face (indices c)) eqn:E.
    + rewrite rotateCubie_inLayer, E. reflexivity.
    + rewrite E. reflexivity.
  - rewrite calculateLayerRotation_map, map_map. apply map_ext.
    intros c. destruct (inLayer V face (indices c)); [| reflexivity].
    unfold k, rotateCubie. cbn [indices type].
    rewrite face_rotation_component. reflexivity.
Qed.

(** X5.  At the angle 0 the rotation transformer changes nothing: on every
    state the grid indices, orientations and types come back as they were,
    and on every state reached from the solved configuration by committed
    quarter turns the whole state does, positions included.  This is the
    angle of a frame at progress 0, since the easing curve is 0 there. *)
Theorem rotation_by_zero (V : Variant) (l : list CubiePosition)
    (faces : list Face) (face : Face) :
  map (fun c => (indices c, quaternion c, type c))
    (calculateLayerRotation V l face 0)
  = map (fun c => (indices c, quaternion c, type c)) l
  /\ calculateLayerRotation V
       (commitTurns V faces (initialCubiePositions V)) face 0
     = commitTurns V faces (initialCubiePositions V)
  /\ PI / 2 * easeInOutCubic (Js.min 0 1) = 0.
Proof.
  split; [rewrite calculateLayerRotation_zero; reflexivity |].
  split; [apply calculateLayerRotation_zero |].
  rewrite min_below by lra. rewrite ease_zero. ring.
Qed.

(** ** Cubie types and layers across committed turns *)

Lemma opp_eqb_zero (a : Z) : (- a =? 0)%Z = (a =? 0)%Z.
Proof. destruct a; reflexivity. Qed.

Lemma cubieType_quarterZ (b : bool) (a : AxisName) (x y z : Z) :
  (let '(x', y', z') := quarterZ b a (x, y, z) in cubieType x' y' z')
  = cubieType x y z.
Proof.
  unfold cubieType.
  destruct b, a; simpl; rewrite ?opp_eqb_zero;
    destruct (x =? 0)%Z, (y =? 0)%Z, (z =? 0)%Z; reflexivity.
Qed.

Lemma commitZ_in_lattice (sense : Face -> bool) (face : Face) (p : Z3) :
  In p getTargetPositions -> In (commitZ sense face p) getTargetPositions.
Proof.
  intros H. apply (Permutation_in _ (commitZ_lattice sense face)).
  apply in_map. exact H.
Qed.

Lemma types_follow_grid_for (V : Variant) (sense : Face -> bool)
    (faces : list Face) :
  0 < EPSILON V <= / 2 ->
  (forall face p,
      Three.applyAxisAngle (embed p) (ROTATION_AXES face)
        (PI / 2 * ROTATION_DIRECTIONS V face)
      = embed (quarterZ (sense face) (axis (LAYER_INDICES face)) p)) ->
  Forall (fun c => exists x y z,
            In (x, y, z) getTargetPositions
            /\ indices c = embed (x, y, z) /\ type c = cubieType x y z)
    (commitTurns V faces (initialCubiePositions V)).
Proof.
  intros [Hp Hh] Hturn.
  assert (Hinit : Forall (fun c => exists x y z,
                      In (x, y, z) getTargetPositions
                      /\ indices c = embed (x, y, z)
                      /\ type c = cubieType x y z)
                    (initialCubiePositions V)).
  { unfold initialCubiePositions. apply Forall_map, Forall_forall.
    intros [[x y] z] Hin. exists x, y, z. repeat split. exact Hin. }
  generalize (initialCubiePositions V) Hinit.
  induction faces as [| f faces IH]; intros l Hl; [exact Hl |].
  simpl. apply IH. rewrite rotateLayer_map. apply Forall_map.
  eapply Forall_impl; [| exact Hl]. cbv beta.
  intros c (x & y & z & Hin & Hc & Ht).
  pose proof (commitCubie_indices V sense Hp Hh Hturn f c (x, y, z) Hc) as Hi.
  pose proof (commitZ_in_lattice sense f (x, y, z) Hin) as Hin'.
  assert (Hty : (let '(x', y', z') := commitZ sense f (x, y, z) in
                 cubieType x' y' z') = cubieType x y z).
  { unfold commitZ. destruct (inLayerZ f (x, y, z));
      [apply cubieType_quarterZ | reflexivity]. }
  destruct (commitZ sense f (x, y, z)) as [[x' y'] z'].
  exists x', y', z'. split; [exact Hin' |]. split; [exact Hi |].
  rewrite Hty, <- Ht. unfold commitCubie, snapCubie. cbn [type].
  destruct (inLayer V f (indices c)); reflexivity.
Qed.

(** X8.  After every sequence of committed quarter turns the type of every cubie
    is the type of the lattice point it sits on: a corner cubie sits on a
    corner, an edge cubie on an edge and a centre cubie on a face centre. *)
Theorem types_follow_grid :
  bothVariants (fun V => forall faces : list Face,
    Forall (fun c => exists x y z,
              In (x, y, z) getTargetPositions
              /\ indices c = embed (x, y, z) /\ type c = cubieType x y z)
      (commitTurns V faces (initialCubiePositions V))).
Proof.
  split; intros faces.
  - exact (types_follow_grid_for mainVariant mainSense faces main_eps
             quarter_turn_main).
  - exact (types_follow_grid_for overshootVariant overshootSense faces
             overshoot_eps quarter_turn_overshoot).
Qed.

Lemma layersOf_embed (V : Variant) (p : Z3) :
  0 < EPSILON V <= / 2 ->
  layersOf V (embed p) = filter (fun face => inLayerZ face p) allFaces.
Proof.
  intros [Hp Hh]. unfold layersOf. apply filter_ext.
  intros face. apply (inLayer_embed V Hp Hh).
Qed.

(** X9.  A grid index on a corner of the cube lies in the layers of three faces,
    one on an edge in two and one on a face centre in one; no lattice point
    of the cube lies in none. *)
Theorem layers_per_cubie (x y z : Z) :
  In (x, y, z) getTargetPositions ->
  bothVariants (fun V =>
    List.length (layersOf V (embed (x, y, z)))
    = if (cubieType x y z =? "corner")%string then 3%nat
      else if (cubieType x y z =? "edge")%string then 2%nat
      else 1%nat).
Proof.
  intros Hin.
  assert (Hgen : forall V, 0 < EPSILON V <= / 2 ->
            List.length (layersOf V (embed (x, y, z)))
            = if (cubieType x y z =? "corner")%string then 3%nat
              else if (cubieType x y z =? "edge")%string then 2%nat
              else 1%nat).
  { intros V He. rewrite (layersOf_embed V _ He).
    vm_compute in Hin.
    repeat (destruct Hin as [Hin | Hin];
            [injection Hin as <- <- <-; reflexivity |]).
    contradiction. }
  split; apply Hgen; [exact main_eps | exact overshoot_eps].
Qed.

Lemma layers_per_cubie_witness :
  In (1, -1, 0)%Z getTargetPositions
  /\ List.length (layersOf mainVariant (embed (1, -1, 0)%Z)) = 2%nat.
Proof.
  assert (H : In (1, -1, 0)%Z getTargetPositions).
  { apply getTargetPositions_spec. split; [| discriminate].
    unfold inCube, unitRange. lia. }
  split; [exact H |].
  exact (proj1 (layers_per_cubie 1 (-1) 0 H)).
Defined.

(** ** The layer selector on arbitrary states *)

Lemma layerMarks_increasing {A : Type} (p : A -> bool) (start : nat)
    (l : list A) :
  increasing (layerMarks p start l).
Proof.
  revert start. induction l as [| a l IH]; intros start; [exact I |].
  rewrite layerMarks_cons. destruct (p a); [| apply IH].
  split; [| apply IH].
  destruct (layerMarks p (S start) l) as [| j rest] eqn:E; [exact I |].
  assert (Hj : In j (layerMarks p (S start) l)) by (rewrite E; left; reflexivity).
  apply layerMarks_lower in Hj. lia.
Qed.

(** X11.  On every state, with or without integer grid indices,
    [getCubiesInLayer] lists valid array indices in strictly increasing
    order, so none twice, and no more of them than there are cubies; on the
    empty state it is empty. *)
Theorem layer_indices_ordered (V : Variant) (l : list CubiePosition)
    (face : Face) :
  increasing (getCubiesInLayer V l face)
  /\ Forall (fun i => (0 <= i < Z.of_nat (List.length l))%Z)
       (getCubiesInLayer V l face)
  /\ (List.length (getCubiesInLayer V l face) <= List.length l)%nat
  /\ getCubiesInLayer V [] face = [].
Proof.
  split; [rewrite getCubiesInLayer_marks; apply layerMarks_increasing |].
  split; [| split; [| reflexivity]].
  - apply Forall_forall. intros i Hi. apply getCubiesInLayer_In in Hi.
    destruct Hi as (j & c & -> & Hn & _).
    assert (j < List.length l)%nat by (apply nth_error_Some; congruence).
    lia.
  - rewrite getCubiesInLayer_marks, layerMarks_length. apply filter_length_le.
Qed.

Lemma inLayer_opposite (V : Variant) (face : Face) (v : Vector3.t) :
  EPSILON V <= 1 ->
  inLayer V face v = true -> inLayer V (opposite face) v = false.
Proof.
  intros He H. unfold inLayer, Js.abs in *. apply ltb_spec in H.
  apply ltb_false.
  assert (Ha : axis (LAYER_INDICES (opposite face))
               = axis (LAYER_INDICES face)) by (destruct face; reflexivity).
  assert (Hv : IZR (value (LAYER_INDICES (opposite face)))
               = - IZR (value (LAYER_INDICES face)))
    by (destruct face; simpl; lra).
  rewrite Ha, Hv.
  set (x := Vector3.getComponent v
              (AXIS_TO_INDEX (axis (LAYER_INDICES face)))) in *.
  assert (Hone : IZR (value (LAYER_INDICES face)) = 1
                 \/ IZR (value (LAYER_INDICES face)) = -1)
    by (destruct face; simpl; auto).
  apply Rabs_def2 in H.
  destruct Hone as [E | E]; rewrite E in *.
  - rewrite Rabs_right by lra. lra.
  - rewrite Rabs_left by lra. lra.
Qed.

(** X12.  On every state the layers of two opposite faces share no cubie. *)
Theorem opposite_layers_disjoint :
  bothVariants (fun V =>
    forall (l : list CubiePosition) (face : Face) (i : Z),
      ~ (In i (getCubiesInLayer V l face)
         /\ In i (getCubiesInLayer V l (opposite face)))).
Proof.
  assert (Hgen : forall V, EPSILON V <= 1 ->
            forall (l : list CubiePosition) (face : Face) (i : Z),
              ~ (In i (getCubiesInLayer V l face)
                 /\ In i (getCubiesInLayer V l (opposite face)))).
  { intros V He l face i [H1 H2].
    apply getCubiesInLayer_In in H1, H2.
    destruct H1 as (j & c & -> & Hn & Hin).
    destruct H2 as (j' & c' & Hj & Hn' & Hin').
    apply Nat2Z.inj in Hj. subst j'.
    assert (c' = c) by congruence. subst c'.
    rewrite (inLayer_opposite V face _ He Hin) in Hin'. discriminate. }
  split; apply Hgen; simpl; lra.
Qed.

(** ** Snapping *)

Lemma snapComponent_odd (V : Variant) (c : R) :
  snapComponent V (- c) = - snapComponent V c.
Proof.
  unfold snapComponent, Js.abs. rewrite Rabs_Ropp.
  destruct (Js.ltb (Rabs c) (EPSILON V)); [ring |].
  destruct (Rtotal_order c 0) as [H | [H | H]].
  - rewrite (sign_neg c H), sign_pos by lra. ring.
  - subst c. rewrite Ropp_0, sign_zero. ring.
  - rewrite (sign_pos c H), sign_neg by lra. ring.
Qed.

(** X13.  Snapping commutes with negation, for every vector and every
    epsilon; a component of exactly one half is rounded away from zero on
    both sides, to 1 and to -1. *)
Theorem snapToGrid_odd (V : Variant) (v : Vector3.t) :
  snapToGrid V (Vector3.multiplyScalar v (-1))
  = Vector3.multiplyScalar (snapToGrid V v) (-1)
  /\ bothVariants (fun V' =>
       snapComponent V' (1 / 2) = 1 /\ snapComponent V' (- (1 / 2)) = -1).
Proof.
  split.
  - unfold snapToGrid, Vector3.multiplyScalar.
    cbn [Vector3.x Vector3.y Vector3.z].
    replace (Vector3.x v * -1) with (- Vector3.x v) by ring.
    replace (Vector3.y v * -1) with (- Vector3.y v) by ring.
    replace (Vector3.z v * -1) with (- Vector3.z v) by ring.
    rewrite !snapComponent_odd. apply vector3_eq; simpl; ring.
  - assert (Hhalf : forall V', EPSILON V' <= / 2 ->
              snapComponent V' (1 / 2) = 1).
    { intros V' He. unfold snapComponent, Js.abs.
      rewrite Rabs_right by lra. rewrite ltb_false by lra.
      rewrite sign_pos by lra. rewrite (round_near (1 / 2) 1) by lra.
      ring. }
    split; (split; [apply Hhalf; simpl; lra |]);
      rewrite snapComponent_odd, Hhalf by (simpl; lra); ring.
Qed.

(** X14.  Snapping recovers a lattice point from every vector whose components
    are less than one half away from it, and its result always has integer
    components. *)
Theorem snap_absorbs_drift (v : Vector3.t) (a b c : Z) :
  Rabs (Vector3.x v - IZR a) < / 2 ->
  Rabs (Vector3.y v - IZR b) < / 2 ->
  Rabs (Vector3.z v - IZR c) < / 2 ->
  bothVariants (fun V =>
    snapToGrid V v = embed (a, b, c)
    /\ forall u : Vector3.t, integerVector (snapToGrid V u)).
Proof.
  intros Hx Hy Hz. split; (split;
    [ apply snapToGrid_near; simpl; try lra; assumption
    | intros u; apply snapToGrid_integer ]).
Qed.

Lemma snap_absorbs_drift_witness :
  Rabs (13 / 10 - IZR 1) < / 2
  /\ snapToGrid mainVariant (Vector3.new (13 / 10) (- (4 / 10)) (-3 / 4))
     = embed (1, 0, -1)%Z.
Proof.
  assert (Hx : Rabs (13 / 10 - IZR 1) < / 2) by (apply Rabs_def1; lra).
  assert (Hy : Rabs (- (4 / 10) - IZR 0) < / 2) by (apply Rabs_def1; lra).
  assert (Hz : Rabs (-3 / 4 - IZR (-1)) < / 2) by (apply Rabs_def1; lra).
  split; [exact Hx |].
  exact (proj1 (proj1 (snap_absorbs_drift
                         (Vector3.new (13 / 10) (- (4 / 10)) (-3 / 4))
                         1 0 (-1) Hx Hy Hz))).
Defined.

(** ** Refs *)

Lemma set_nth_mounted (i : nat) (o : Object3D)
    (refs : list (option Object3D)) :
  (exists o', nth_error refs i = Some (Some o')) ->
  map mounted (Js.set_nth i (Some o) refs) = map mounted refs.
Proof.
  revert i. induction refs as [| r refs IH]; intros [| i] [o' H];
    simpl in *; try discriminate.
  - injection H as ->. reflexivity.
  - f_equal. apply IH. exists o'. exact H.
Qed.

Lemma copyTransform_mounted (source : list CubiePosition)
    (refs : list (option Object3D)) (index : Z) :
  map mounted (copyTransform source refs index) = map mounted refs.
Proof.
  unfold copyTransform.
  destruct (nth_error refs (Z.to_nat index)) as [[o |] |] eqn:E;
    try reflexivity.
  destruct (nth_error source (Z.to_nat index)); [| reflexivity].
  apply set_nth_mounted. exists o. exact E.
Qed.

Lemma publish_mounted (layer : list Z) (source : list CubiePosition)
    (refs : list (option Object3D)) :
  map mounted (publish layer source refs) = map mounted refs.
Proof.
  unfold publish. revert refs.
  induction layer as [| index layer IH]; intros refs; [reflexivity |].
  simpl. rewrite IH. apply copyTransform_mounted.
Qed.

Lemma published_overwrite (source1 source2 : list CubiePosition)
    (ref : option (option Object3D)) (i : nat) :
  List.length source1 = List.length source2 ->
  published source2 (published source1 ref i) i = published source2 ref i.
Proof.
  intros Hlen. unfold published. destruct ref as [[o |] |]; try reflexivity.
  destruct (nth_error source1 i) as [c1 |] eqn:E1.
  - destruct (nth_error source2 i) as [c2 |] eqn:E2; [reflexivity |].
    apply nth_error_None in E2. rewrite <- Hlen in E2.
    apply nth_error_None in E2. congruence.
  - reflexivity.
Qed.

Lemma publish_overwrite (layer : list Z) (source1 source2 : list CubiePosition)
    (refs : list (option Object3D)) :
  Forall (fun index => (0 <= index)%Z) layer ->
  List.length source1 = List.length source2 ->
  publish layer source2 (publish layer source1 refs)
  = publish layer source2 refs.
Proof.
  intros Hnn Hlen. apply nth_error_ext. intros i.
  rewrite !(publish_nth _ layer _ i Hnn).
  destruct (Js.includes layer (Z.of_nat i)); [| reflexivity].
  apply published_overwrite. exact Hlen.
Qed.

Lemma calculateLayerRotation_length (V : Variant) (l : list CubiePosition)
    (face : Face) (angle : R) :
  List.length (calculateLayerRotation V l face angle) = List.length l.
Proof. rewrite calculateLayerRotation_map. apply length_map. Qed.

Lemma rotateLayer_length (V : Variant) (l : list CubiePosition)
    (face : Face) :
  List.length (rotateLayer V l face) = List.length l.
Proof. rewrite rotateLayer_map. apply length_map. Qed.

Lemma spin_zero (speedY speedX : R) (g : option Group) :
  spin speedY speedX 0 g = g.
Proof.
  destruct g as [[rx ry] |]; [| reflexivity].
  simpl. do 2 f_equal; ring.
Qed.

(** ** Frames of the main variant *)

Lemma Main_world_eq (a b : Main.World) :
  Main.groupRef a = Main.groupRef b ->
  Main.cubieRefs a = Main.cubieRefs b ->
  Main.cubiePositions a = Main.cubiePositions b ->
  Main.rotationState a = Main.rotationState b ->
  Main.timers a = Main.timers b -> a = b.
Proof. destruct a, b. simpl. intros -> -> -> -> ->. reflexivity. Qed.

Lemma Main_useFrame_commit_eq (w : Main.World) (delta : R) (face : Face) :
  Main.isRotating (Main.rotationState w) = true ->
  Main.currentFace (Main.rotationState w) = Some face ->
  1 <= Main.progress (Main.rotationState w) + delta / Main.rotationSpeed ->
  Main.useFrame w delta =
  {| Main.groupRef :=
       spin Main.cubeRotationSpeed (Main.cubeRotationSpeed / 2) delta
         (Main.groupRef w);
     Main.cubieRefs :=
       publish (getCubiesInLayer mainVariant (Main.cubiePositions w) face)
         (rotateLayer mainVariant (Main.cubiePositions w) face)
         (Main.cubieRefs w);
     Main.cubiePositions :=
       rotateLayer mainVariant (Main.cubiePositions w) face;
     Main.rotationState :=
       {| Main.isRotating := false;
          Main.currentFace := Some face;
          Main.progress := 0;
          Main.sequenceIndex := Main.sequenceIndex (Main.rotationState w);
          Main.inSequencePause :=
            Main.inSequencePause (Main.rotationState w);
          Main.inRotationPause := true |};
     Main.timers :=
       Main.timers w ++ [{| callback := StartNextRotation; delay := 1500 |}]
  |}.
Proof.
  intros Hr Hf Hp. unfold Main.useFrame. rewrite Hr, Hf.
  rewrite (min_above _ Hp), geb_true by lra. reflexivity.
Qed.

Lemma Main_zero_delta_idle (w : Main.World) :
  Main.isRotating (Main.rotationState w) = false
  \/ Main.currentFace (Main.rotationState w) = None ->
  Main.useFrame w 0 = w.
Proof.
  intros H. rewrite (Main_useFrame_idle w 0 H).
  apply Main_world_eq; simpl; try reflexivity. apply spin_zero.
Qed.

Lemma Main_zero_delta_rotating (w : Main.World) (face : Face) :
  Main.isRotating (Main.rotationState w) = true ->
  Main.currentFace (Main.rotationState w) = Some face ->
  Main.useFrame (Main.useFrame w 0) 0 = Main.useFrame w 0.
Proof.
  intros Hr Hf.
  assert (Hsame : Main.progress (Main.rotationState w)
                  + 0 / Main.rotationSpeed + 0 / Main.rotationSpeed
                  = Main.progress (Main.rotationState w)
                    + 0 / Main.rotationSpeed).
  { unfold Main.rotationSpeed. field. }
  destruct (Rlt_le_dec
              (Main.progress (Main.rotationState w)
               + 0 / Main.rotationSpeed) 1) as [H1 | H1].
  - pose proof (Main_useFrame_in_progress w 0 face Hr Hf H1) as E1.
    cbv zeta in E1. rewrite E1. clear E1.
    match goal with
    | |- Main.useFrame ?w1 0 = _ =>
        rewrite (Main_useFrame_in_progress w1 0 face eq_refl eq_refl)
          by (simpl; rewrite Hsame; exact H1)
    end.
    cbv zeta. apply Main_world_eq; simpl.
    + rewrite spin_zero. reflexivity.
    + rewrite Hsame.
      apply publish_overwrite; [apply layer_nonneg | reflexivity].
    + reflexivity.
    + rewrite Hsame. reflexivity.
    + reflexivity.
  - rewrite (Main_useFrame_commit_eq w 0 face Hr Hf H1).
    apply Main_zero_delta_idle. left. reflexivity.
Qed.

(** X15.  A frame of delta 0 of the main variant is idempotent: in every
    state a second such frame changes nothing more.  It leaves the idle spin
    as it is, and in the middle of a turn it leaves the grid state, the
    rotation state and the timers as they are. *)
Theorem Main_zero_delta_frame (w : Main.World) (face : Face) :
  Main.useFrame (Main.useFrame w 0) 0 = Main.useFrame w 0
  /\ Main.groupRef (Main.useFrame w 0) = Main.groupRef w
  /\ (Main.isRotating (Main.rotationState w) = true ->
      Main.currentFace (Main.rotationState w) = Some face ->
      Main.progress (Main.rotationState w) < 1 ->
      Main.cubiePositions (Main.useFrame w 0) = Main.cubiePositions w
      /\ Main.rotationState (Main.useFrame w 0) = Main.rotationState w
      /\ Main.timers (Main.useFrame w 0) = Main.timers w).
Proof.
  split; [| split].
  - destruct (Main.isRotating (Main.rotationState w)) eqn:Hr;
      [destruct (Main.currentFace (Main.rotationState w)) as [f |] eqn:Hf |].
    + apply (Main_zero_delta_rotating w f Hr Hf).
    + rewrite (Main_zero_delta_idle w) by (right; exact Hf).
      apply Main_zero_delta_idle. right. exact Hf.
    + rewrite (Main_zero_delta_idle w) by (left; exact Hr).
      apply Main_zero_delta_idle. left. exact Hr.
  - rewrite Main_useFrame_spin. apply spin_zero.
  - intros Hr Hf Hp.
    assert (Hnp : Main.progress (Main.rotationState w)
                  + 0 / Main.rotationSpeed < 1).
    { unfold Main.rotationSpeed. lra. }
    rewrite (Main_useFrame_in_progress w 0 face Hr Hf Hnp). cbv zeta. simpl.
    split; [reflexivity |]. split; [| reflexivity].
    destruct (Main.rotationState w) as [ir cf pr si isp irp]. simpl in *.
    subst ir cf. f_equal. unfold Main.rotationSpeed. field.
Qed.

Lemma Main_zero_delta_frame_witness :
  Main.isRotating (Main.rotationState mainExample) = true
  /\ Main.currentFace (Main.rotationState mainExample) = Some RIGHT
  /\ Main.progress (Main.rotationState mainExample) < 1
  /\ Main.rotationState (Main.useFrame mainExample 0)
     = Main.rotationState mainExample.
Proof.
  assert (H : Main.progress (Main.rotationState mainExample) < 1)
    by (simpl; lra).
  split; [reflexivity |]. split; [reflexivity |]. split; [exact H |].
  exact (proj1 (proj2 (proj2 (proj2 (Main_zero_delta_frame mainExample RIGHT))
                         eq_refl eq_refl H))).
Defined.

(** X16.  The frame of the main variant that completes a turn commits
    [rotateLayer], enters the rotation pause with progress 0 and the face
    and the sequence index as they were, starts exactly one timer, for
    [startNextRotation] after 1500 ms, and makes every mounted ref of the
    turned layer show the committed transform of its cubie; the refs of the
    other cubies are left as they are. *)
Theorem Main_commit_frame (w : Main.World) (delta : R) (face : Face) :
  Main.isRotating (Main.rotationState w) = true ->
  Main.currentFace (Main.rotationState w) = Some face ->
  1 <= Main.progress (Main.rotationState w) + delta / Main.rotationSpeed ->
  let w' := Main.useFrame w delta in
  Main.cubiePositions w'
  = rotateLayer mainVariant (Main.cubiePositions w) face
  /\ Main.rotationState w'
     = {| Main.isRotating := false;
          Main.currentFace := Some face;
          Main.progress := 0;
          Main.sequenceIndex := Main.sequenceIndex (Main.rotationState w);
          Main.inSequencePause :=
            Main.inSequencePause (Main.rotationState w);
          Main.inRotationPause := true |}
  /\ Main.timers w'
     = Main.timers w ++ [{| callback := StartNextRotation; delay := 1500 |}]
  /\ (forall i : nat,
        nth_error (Main.cubieRefs w') i
        = if Js.includes
               (getCubiesInLayer mainVariant (Main.cubiePositions w) face)
               (Z.of_nat i)
          then published (Main.cubiePositions w')
                 (nth_error (Main.cubieRefs w) i) i
          else nth_error (Main.cubieRefs w) i).
Proof.
  intros Hr Hf Hp w'. unfold w'.
  rewrite (Main_useFrame_commit_eq w delta face Hr Hf Hp). simpl.
  repeat split. intros i. apply publish_layer_nth.
Qed.

Lemma Main_commit_frame_witness :
  1 <= Main.progress (Main.rotationState mainExample)
       + 1 / Main.rotationSpeed
  /\ Main.cubiePositions (Main.useFrame mainExample 1)
     = rotateLayer mainVariant (Main.cubiePositions mainExample) RIGHT.
Proof.
  assert (H : 1 <= Main.progress (Main.rotationState mainExample)
                   + 1 / Main.rotationSpeed).
  { unfold Main.rotationSpeed. simpl. lra. }
  split; [exact H |].
  exact (proj1 (Main_commit_frame mainExample 1 RIGHT eq_refl eq_refl H)).
Defined.

(** X17.  No frame, of either variant, mounts or unmounts a ref or changes their
    number. *)
Theorem frames_keep_refs_mounted (delta : R) :
  (forall w : Main.World,
      map mounted (Main.cubieRefs (Main.useFrame w delta))
      = map mounted (Main.cubieRefs w))
  /\ (forall w : Overshoot.World,
        map mounted (Overshoot.cubieRefs (Overshoot.useFrame w delta))
        = map mounted (Overshoot.cubieRefs w)).
Proof.
  split; intros w.
  - unfold Main.useFrame.
    destruct (Main.isRotating (Main.rotationState w));
      [destruct (Main.currentFace (Main.rotationState w)) |];
      try reflexivity.
    destruct (Js.geb _ 1); simpl; apply publish_mounted.
  - destruct (Overshoot.isRotating (Overshoot.rotationState w)) eqn:Hr;
      [destruct (Overshoot.currentFace (Overshoot.rotationState w))
         as [face |] eqn:Hf |].
    + rewrite (Overshoot_useFrame_rotating w delta face Hr Hf). simpl.
      apply publish_mounted.
    + unfold Overshoot.useFrame. rewrite Hr, Hf, andb_false_r. reflexivity.
    + unfold Overshoot.useFrame. rewrite Hr.
      destruct (negb (Overshoot.inRotationPause (Overshoot.rotationState w))
                && negb (Overshoot.inSequencePause
                           (Overshoot.rotationState w))
                && negb false); simpl; apply publish_mounted.
Qed.

(** ** The turn sequence *)

Lemma sequence_face (n : nat) :
  (n < 6)%nat -> exists face, nth_error ROTATION_SEQUENCE n = Some face.
Proof.
  intros H. destruct (nth_error ROTATION_SEQUENCE n) as [face |] eqn:E.
  - exists face. reflexivity.
  - apply nth_error_None in E. simpl in E. lia.
Qed.

(** X18.  Between two turns the timers of the main variant move the sequence index
    one step round the cycle of six and start the turn of the face at the
    new index, whatever the state they find; the grid state and the refs are
    not touched.  The order of the faces is RIGHT, FRONT, BACK, LEFT, TOP,
    BOTTOM and RIGHT again. *)
Theorem Main_turn_order (w : Main.World) :
  let n := ((Main.sequenceIndex (Main.rotationState w) + 1) mod 6)%nat in
  let w' := mainNextTurn w in
  Main.isRotating (Main.rotationState w') = true
  /\ Main.sequenceIndex (Main.rotationState w') = n
  /\ Main.currentFace (Main.rotationState w') = nth_error ROTATION_SEQUENCE n
  /\ (exists face, Main.currentFace (Main.rotationState w') = Some face)
  /\ Main.inSequencePause (Main.rotationState w') = false
  /\ Main.inRotationPause (Main.rotationState w') = false
  /\ Main.cubiePositions w' = Main.cubiePositions w
  /\ Main.cubieRefs w' = Main.cubieRefs w
  /\ map (fun i => nth_error ROTATION_SEQUENCE ((i + 1) mod 6))
         [0; 1; 2; 3; 4; 5]%nat
     = [Some FRONT; Some BACK; Some LEFT; Some TOP; Some BOTTOM; Some RIGHT].
Proof.
  intros n w'.
  assert (Hn : (n < 6)%nat) by (apply Nat.mod_upper_bound; discriminate).
  destruct (sequence_face n Hn) as [face Hface].
  assert (Hmain : Main.isRotating (Main.rotationState w') = true
          /\ Main.sequenceIndex (Main.rotationState w') = n
          /\ Main.currentFace (Main.rotationState w')
             = nth_error ROTATION_SEQUENCE n
          /\ Main.inSequencePause (Main.rotationState w') = false
          /\ Main.inRotationPause (Main.rotationState w') = false
          /\ Main.cubiePositions w' = Main.cubiePositions w
          /\ Main.cubieRefs w' = Main.cubieRefs w).
  { unfold w', mainNextTurn, Main.fire, Main.startNextRotation.
    change (List.length ROTATION_SEQUENCE) with 6%nat. fold n.
    clearbody n.
    destruct (Nat.eqb_spec n 0) as [E | E];
      destruct (Main.inSequencePause (Main.rotationState w)); cbn;
      rewrite ?E; repeat split; reflexivity. }
  destruct Hmain as (H1 & H2 & H3 & H4 & H5 & H6 & H7).
  repeat split; try assumption.
  exists face. rewrite H3. exact Hface.
Qed.

(** X19.  The timers of the overshoot variant do the same, from the states in
    which the sequence pause is not already on, and the turn they start is
    at progress 0 in the initial phase. *)
Theorem Overshoot_turn_order (w : Overshoot.World) :
  Overshoot.inSequencePause (Overshoot.rotationState w) = false ->
  let n := ((Overshoot.sequenceIndex (Overshoot.rotationState w) + 1)
            mod 6)%nat in
  let w' := overshootNextTurn w in
  Overshoot.isRotating (Overshoot.rotationState w') = true
  /\ Overshoot.sequenceIndex (Overshoot.rotationState w') = n
  /\ Overshoot.currentFace (Overshoot.rotationState w')
     = nth_error ROTATION_SEQUENCE n
  /\ (exists face,
        Overshoot.currentFace (Overshoot.rotationState w') = Some face)
  /\ Overshoot.progress (Overshoot.rotationState w') = 0
  /\ Overshoot.overshootPhase (Overshoot.rotationState w') = false
  /\ Overshoot.overshootReturn (Overshoot.rotationState w') = false
  /\ Overshoot.inSequencePause (Overshoot.rotationState w') = false
  /\ Overshoot.inRotationPause (Overshoot.rotationState w') = false
  /\ Overshoot.cubiePositions w' = Overshoot.cubiePositions w
  /\ Overshoot.cubieRefs w' = Overshoot.cubieRefs w.
Proof.
  intros Hs n w'.
  assert (Hn : (n < 6)%nat) by (apply Nat.mod_upper_bound; discriminate).
  destruct (sequence_face n Hn) as [face Hface].
  assert (Hmain :
    Overshoot.isRotating (Overshoot.rotationState w') = true
    /\ Overshoot.sequenceIndex (Overshoot.rotationState w') = n
    /\ Overshoot.currentFace (Overshoot.rotationState w')
       = nth_error ROTATION_SEQUENCE n
    /\ Overshoot.progress (Overshoot.rotationState w') = 0
    /\ Overshoot.overshootPhase (Overshoot.rotationState w') = false
    /\ Overshoot.overshootReturn (Overshoot.rotationState w') = false
    /\ Overshoot.inSequencePause (Overshoot.rotationState w') = false
    /\ Overshoot.inRotationPause (Overshoot.rotationState w') = false
    /\ Overshoot.cubiePositions w' = Overshoot.cubiePositions w
    /\ Overshoot.cubieRefs w' = Overshoot.cubieRefs w).
  { unfold w', overshootNextTurn, Overshoot.fire.
    change (List.length ROTATION_SEQUENCE) with 6%nat. fold n.
    clearbody n.
    destruct (Nat.eqb_spec n 0) as [E | E]; cbn [Overshoot.timers].
    - rewrite length_app, (proj2 (Nat.ltb_lt _ _)) by (simpl; lia).
      cbn. rewrite ?E. repeat split; reflexivity.
    - rewrite Nat.ltb_irrefl. cbn. rewrite ?Hs.
      repeat split; reflexivity. }
  destruct Hmain as (H1 & H2 & H3 & H4 & H5 & H6 & H7 & H8 & H9 & H10).
  repeat split; try assumption.
  exists face. rewrite H3. exact Hface.
Qed.

Lemma Overshoot_turn_order_witness :
  Overshoot.inSequencePause (Overshoot.rotationState (overshootExample 0))
  = false
  /\ Overshoot.currentFace
       (Overshoot.rotationState (overshootNextTurn (overshootExample 0)))
     = Some FRONT.
Proof.
  split; [reflexivity |].
  exact (proj1 (proj2 (proj2 (Overshoot_turn_order (overshootExample 0)
                                eq_refl)))).
Defined.

(** ** Idle frames of the overshoot variant *)

Lemma includes_seq (n i : nat) :
  Js.includes (map Z.of_nat (seq 0 n)) (Z.of_nat i) = (i <? n)%nat.
Proof.
  destruct (Nat.ltb_spec i n) as [H | H].
  - apply includes_spec. apply in_map. apply in_seq. lia.
  - destruct (Js.includes (map Z.of_nat (seq 0 n)) (Z.of_nat i)) eqn:E;
      [| reflexivity].
    apply includes_spec in E. apply in_map_iff in E.
    destruct E as (j & Hj & Hin). apply Nat2Z.inj in Hj. subst j.
    apply in_seq in Hin. lia.
Qed.

Lemma publish_all_nth (cubies : list CubiePosition)
    (refs : list (option Object3D)) (i : nat) :
  nth_error
    (publish (map Z.of_nat (seq 0 (List.length cubies))) cubies refs) i
  = published cubies (nth_error refs i) i.
Proof.
  rewrite publish_nth.
  - rewrite includes_seq. destruct (Nat.ltb_spec i (List.length cubies)) as [H | H];
      [reflexivity |].
    unfold published. apply nth_error_None in H. rewrite H.
    destruct (nth_error refs i) as [[o |] |]; reflexivity.
  - apply Forall_forall. intros z Hz. apply in_map_iff in Hz.
    destruct Hz as (j & <- & _). lia.
Qed.

(** X20.  While no turn is in progress, a frame of the overshoot variant leaves
    the grid state and the timers as they are and makes every mounted ref
    show the authoritative transform of its cubie.  When no pause is on
    either, the frame starts the first turn: the RIGHT face, sequence index
    0, progress 0, initial phase; during a pause the rotation state is left
    as it is. *)
Theorem Overshoot_idle_frame (w : Overshoot.World) (delta : R) :
  Overshoot.isRotating (Overshoot.rotationState w) = false ->
  let w' := Overshoot.useFrame w delta in
  Overshoot.cubiePositions w' = Overshoot.cubiePositions w
  /\ Overshoot.timers w' = Overshoot.timers w
  /\ (forall i : nat,
        nth_error (Overshoot.cubieRefs w') i
        = published (Overshoot.cubiePositions w)
            (nth_error (Overshoot.cubieRefs w) i) i)
  /\ Overshoot.rotationState w'
     = if Overshoot.inRotationPause (Overshoot.rotationState w)
          || Overshoot.inSequencePause (Overshoot.rotationState w)
       then Overshoot.rotationState w
       else {| Overshoot.isRotating := true;
               Overshoot.currentFace := Some RIGHT;
               Overshoot.progress := 0;
               Overshoot.sequenceIndex := 0;
               Overshoot.inSequencePause := false;
               Overshoot.inRotationPause := false;
               Overshoot.overshootPhase := false;
               Overshoot.overshootReturn := false |}.
Proof.
  intros Hr w'. unfold w', Overshoot.useFrame. rewrite Hr.
  destruct (Overshoot.inRotationPause (Overshoot.rotationState w));
    destruct (Overshoot.inSequencePause (Overshoot.rotationState w));
    simpl; repeat split; try reflexivity; intros i; apply publish_all_nth.
Qed.

Lemma Overshoot_idle_frame_witness :
  Overshoot.isRotating (Overshoot.rotationState overshootStart) = false
  /\ Overshoot.currentFace
       (Overshoot.rotationState (Overshoot.useFrame overshootStart (1 / 60)))
     = Some RIGHT.
Proof.
  split; [reflexivity |].
  pose proof (proj2 (proj2 (proj2 (Overshoot_idle_frame overshootStart
                                     (1 / 60) eq_refl)))) as H.
  cbv zeta in H. rewrite H. reflexivity.
Defined.

(** ** The animated angle of the main variant *)

Lemma min_monotone (a b : R) : a <= b -> Js.min a 1 <= Js.min b 1.
Proof.
  intros H. destruct (Rlt_le_dec a 1) as [Ha | Ha];
    destruct (Rlt_le_dec b 1) as [Hb | Hb].
  - rewrite !min_below by assumption. exact H.
  - rewrite min_below, min_above by assumption. lra.
  - lra.
  - rewrite !min_above by assumption. lra.
Qed.

(** X21.  The angle that a frame of the main variant animates,
    [90 degrees * ease (min progress 1)], never decreases as the progress
    grows, lies between 0 and 90 degrees for every progress that is not
    negative, and is exactly 90 degrees from progress 1 on. *)
Theorem Main_angle_monotone (a b : R) :
  a <= b ->
  PI / 2 * easeInOutCubic (Js.min a 1) <= PI / 2 * easeInOutCubic (Js.min b 1)
  /\ (0 <= a -> 0 <= PI / 2 * easeInOutCubic (Js.min a 1) <= PI / 2)
  /\ (1 <= a -> PI / 2 * easeInOutCubic (Js.min a 1) = PI / 2).
Proof.
  intros H. pose proof PI_RGT_0 as Hpi.
  split; [| split].
  - apply Rmult_le_compat_l; [lra |].
    apply ease_nondecreasing, min_monotone, H.
  - intros Ha.
    assert (Hm : 0 <= Js.min a 1 <= 1).
    { destruct (Rlt_le_dec a 1) as [Hlt | Hge].
      - rewrite min_below by exact Hlt. lra.
      - rewrite min_above by exact Hge. lra. }
    pose proof (ease_nondecreasing 0 (Js.min a 1) (proj1 Hm)) as Hlo.
    pose proof (ease_nondecreasing (Js.min a 1) 1 (proj2 Hm)) as Hhi.
    rewrite ease_zero in Hlo. rewrite ease_one in Hhi.
    split; [apply Rmult_le_pos; lra |].
    rewrite <- (Rmult_1_r (PI / 2)) at 2.
    apply Rmult_le_compat_l; lra.
  - intros Ha. rewrite min_above by exact Ha. rewrite ease_one. ring.
Qed.

Lemma Main_angle_monotone_witness :
  1 / 4 <= 3 / 4
  /\ PI / 2 * easeInOutCubic (Js.min (1 / 4) 1)
     <= PI / 2 * easeInOutCubic (Js.min (3 / 4) 1).
Proof.
  assert (H : 1 / 4 <= 3 / 4) by lra.
  split; [exact H | exact (proj1 (Main_angle_monotone _ _ H))].
Defined.

(** ** Turns of opposite faces *)

Lemma commitCubie_quaternion (V : Variant) (face : Face) (c : CubiePosition)
    (p : Z3) :
  0 < EPSILON V <= / 2 ->
  indices c = embed p ->
  quaternion (commitCubie V face c)
  = if inLayerZ face p
    then Quaternion.premultiply (quaternion c)
           (Quaternion.setFromAxisAngle (ROTATION_AXES face)
              (PI / 2 * ROTATION_DIRECTIONS V face))
    else quaternion c.
Proof.
  intros [Hp Hh] Hc. unfold commitCubie, snapCubie. cbn [quaternion].
  rewrite Hc, (inLayer_embed V Hp Hh).
  destruct (inLayerZ face p); reflexivity.
Qed.

Lemma commitZ_opposite_commute (sense : Face -> bool) (face : Face) (p : Z3) :
  commitZ sense (opposite face) (commitZ sense face p)
  = commitZ sense face (commitZ sense (opposite face) p)
  /\ (inLayerZ face p = true ->
      inLayerZ (opposite face) p = false
      /\ inLayerZ (opposite face)
           (quarterZ (sense face) (axis (LAYER_INDICES face)) p) = false)
  /\ (inLayerZ (opposite face) p = true ->
      inLayerZ face p = false
      /\ inLayerZ face
           (quarterZ (sense (opposite face))
              (axis (LAYER_INDICES (opposite face))) p) = false).
Proof.
  destruct p as [[x y] z]. unfold commitZ, inLayerZ.
  generalize (sense face) (sense (opposite face)). intros b1 b2.
  destruct face, b1, b2; simpl;
    repeat match goal with
           | |- context [(?a =? ?b)%Z] => destruct (Z.eqb_spec a b)
           end;
    repeat split; intros; simpl in *; try reflexivity; try congruence; lia.
Qed.

Lemma opposite_turns_commute_for (V : Variant) (sense : Face -> bool)
    (face : Face) (l : list CubiePosition) :
  0 < EPSILON V <= / 2 ->
  (forall face p,
      Three.applyAxisAngle (embed p) (ROTATION_AXES face)
        (PI / 2 * ROTATION_DIRECTIONS V face)
      = embed (quarterZ (sense face) (axis (LAYER_INDICES face)) p)) ->
  Forall (fun c => integerVector (indices c)) l ->
  map (fun c => (indices c, quaternion c, type c))
    (rotateLayer V (rotateLayer V l face) (opposite face))
  = map (fun c => (indices c, quaternion c, type c))
      (rotateLayer V (rotateLayer V l (opposite face)) face).
Proof.
  intros He Hturn Hint. destruct He as [Hp Hh].
  rewrite !rotateLayer_map, !map_map. apply map_ext_in. intros c Hin.
  destruct (proj1 (Forall_forall _ _) Hint c Hin) as [p Hc].
  pose proof (commitCubie_indices V sense Hp Hh Hturn) as Hstep.
  assert (H1 := Hstep face _ _ Hc).
  assert (H2 := Hstep (opposite face) _ _ Hc).
  assert (H12 := Hstep (opposite face) _ _ H1).
  assert (H21 := Hstep face _ _ H2).
  destruct (commitZ_opposite_commute sense face p) as (Hcomm & Hf & Hof).
  rewrite H12, H21, Hcomm.
  rewrite (commitCubie_quaternion V (opposite face) _ _ (conj Hp Hh) H1).
  rewrite (commitCubie_quaternion V face _ _ (conj Hp Hh) H2).
  rewrite (commitCubie_quaternion V face _ _ (conj Hp Hh) Hc).
  rewrite (commitCubie_quaternion V (opposite face) _ _ (conj Hp Hh) Hc).
  assert (Hty : forall f c', type (commitCubie V f c') = type c').
  { intros f c'. unfold commitCubie, snapCubie. cbn [type].
    destruct (inLayer V f (indices c')); reflexivity. }
  rewrite !Hty.
  assert (Ha : inLayerZ (opposite face) (commitZ sense face p)
               = inLayerZ (opposite face) p).
  { unfold commitZ. destruct (inLayerZ face p) eqn:Ef; [| reflexivity].
    destruct (Hf eq_refl) as [Ho Ho']. rewrite Ho, Ho'. reflexivity. }
  assert (Hb : inLayerZ face (commitZ sense (opposite face) p)
               = inLayerZ face p).
  { unfold commitZ. destruct (inLayerZ (opposite face) p) eqn:Eo;
      [| reflexivity].
    destruct (Hof eq_refl) as [Hn Hn']. rewrite Hn, Hn'. reflexivity. }
  rewrite Ha, Hb.
  destruct (inLayerZ face p) eqn:Ef.
  - destruct (Hf eq_refl) as [Ho _]. rewrite Ho. reflexivity.
  - destruct (inLayerZ (opposite face) p); reflexivity.
Qed.

(** X22.  Committed turns of two opposite faces commute: in either order they
    leave the same grid index, orientation and type on every cubie.  On
    states with integer grid indices. *)
Theorem opposite_turns_commute (face : Face) (l : list CubiePosition) :
  Forall (fun c => integerVector (indices c)) l ->
  bothVariants (fun V =>
    map (fun c => (indices c, quaternion c, type c))
      (rotateLayer V (rotateLayer V l face) (opposite face))
    = map (fun c => (indices c, quaternion c, type c))
        (rotateLayer V (rotateLayer V l (opposite face)) face)).
Proof.
  intros Hint. split.
  - exact (opposite_turns_commute_for mainVariant mainSense face l main_eps
             quarter_turn_main Hint).
  - exact (opposite_turns_commute_for overshootVariant overshootSense face l
             overshoot_eps quarter_turn_overshoot Hint).
Qed.

Lemma opposite_turns_commute_witness :
  Forall (fun c => integerVector (indices c))
    (initialCubiePositions mainVariant)
  /\ map (fun c => (indices c, quaternion c, type c))
       (rotateLayer mainVariant
          (rotateLayer mainVariant (initialCubiePositions mainVariant) RIGHT)
          LEFT)
     = map (fun c => (indices c, quaternion c, type c))
         (rotateLayer mainVariant
            (rotateLayer mainVariant (initialCubiePositions mainVariant) LEFT)
            RIGHT).
Proof.
  split; [apply initial_integer |].
  exact (proj1 (opposite_turns_commute RIGHT _
                  (initial_integer mainVariant))).
Defined.
